(** * Uniswap analytics dashboard: aggregation, rendering and pagination

    A shallow embedding of the dashboard components of
    [src/src/index.js] (the current [App]) and of the three earlier
    variants kept in [src/.history/src/App_20240914233132.js]
    (ten-minute buckets, pagination, first-timestamp chunks).

    Conventions of the embedding.
    - The components are read over exact numbers: a [number] is a rational
      or [NaN], so an operation returns the exact result where a double
      returns the nearest one; signed zeros and the infinities are left
      out.  Where a property depends on the rounding, as the comparison of
      the sums of amounts does, it is stated over the sums of [Doubles],
      whose additions are those of IEEE binary64, and the exact reading
      only supplies the regrouping of the sums.
    - A [Date] is its time value in milliseconds, or invalid; a time value
      beyond +-8.64e15 ms is invalid ([TimeClip]).
    - [parseFloat], [parseInt], the date formatter and the time zone rules
      belong to the host running the page; they are the fields of [Host].
      The offset of local time from UTC is a function of the instant, as
      in ECMA-262 [LocalTZA(t, isUTC)]. *)

From Stdlib Require Import String Ascii.
From Stdlib Require Import List Arith ZArith QArith Qcanon Qround Qabs Lia Bool.
From Stdlib Require Import Permutation Sorted DecimalString Wellfounded.
From Stdlib Require Import Floats.
From Equations Require Import Equations.
Import ListNotations.

Set Implicit Arguments.
Local Open Scope string_scope.
Local Open Scope list_scope.
Local Open Scope Z_scope.

(** ** Numbers *)

Inductive number : Type :=
| NaN : number
| Num : Qc -> number.

Definition ofZ (z : Z) : number := Num (Q2Qc (inject_Z z)).
Definition ofNat (n : nat) : number := ofZ (Z.of_nat n).

(** [a + b] *)
Definition add (a b : number) : number :=
  match a, b with
  | Num p, Num q => Num (p + q)%Qc
  | _, _ => NaN
  end.

(** [a - b] *)
Definition sub (a b : number) : number :=
  match a, b with
  | Num p, Num q => Num (p - q)%Qc
  | _, _ => NaN
  end.

(** [a * b] *)
Definition mul (a b : number) : number :=
  match a, b with
  | Num p, Num q => Num (p * q)%Qc
  | _, _ => NaN
  end.

(** [a / b]; [0 / 0] is [NaN].  A non-zero numerator over zero is an
    infinity in JavaScript, which this model folds into [NaN]. *)
Definition div (a b : number) : number :=
  match a, b with
  | Num p, Num q => if Qc_eq_dec q 0 then NaN else Num (p / q)%Qc
  | _, _ => NaN
  end.

(** [Math.floor] *)
Definition Math_floor (a : number) : number :=
  match a with
  | Num p => ofZ (Qfloor p)
  | NaN => NaN
  end.


Definition isNaN (a : number) : bool :=
  match a with NaN => true | Num _ => false end.

(** [a > 0]; false for [NaN]. *)
Definition positive (a : number) : bool :=
  match a with
  | Num p => match (p ?= 0)%Qc with Gt => true | _ => false end
  | NaN => false
  end.

(** [ToIntegerOrInfinity]: truncation toward zero; [None] stands for NaN. *)
Definition truncate (a : number) : option Z :=
  match a with
  | Num p => Some (Z.quot (Qnum p) (Zpos (Qden p)))
  | NaN => None
  end.

(** ** Dates *)

(** The time value of a [Date]: milliseconds since the epoch, [None] for an
    invalid date. *)
Definition Date : Type := option Z.

(** The largest time value of a [Date]: 100,000,000 days either side of
    the epoch. *)
Definition maxTime : Z := 8640000000000000.

(** [TimeClip(time)] of an integral time: out of range, it is no date. *)
Definition TimeClip (time : Z) : Date :=
  if Z.abs time <=? maxTime then Some time else None.

(** [new Date(value)]: the time value is [TimeClip(value)], which refuses
    a number out of range and truncates the others. *)
Definition new_Date (value : number) : Date :=
  match value with
  | Num p => if Qle_bool (Qabs p) (inject_Z maxTime) then truncate value else None
  | NaN => None
  end.

(** An integer-or-NaN result as a number. *)
Definition numOf (t : option Z) : number :=
  match t with
  | Some z => ofZ z
  | None => NaN
  end.

(** [date.getTime()], also [date.valueOf()]. *)
Definition getTime (d : Date) : number := numOf d.

Definition msPerSecond : Z := 1000.
Definition msPerMinute : Z := 60000.
Definition msPerHour : Z := 3600000.
Definition msPerDay : Z := 86400000.

Definition Day (t : Z) : Z := t / msPerDay.
Definition HourFromTime (t : Z) : Z := (t / msPerHour) mod 24.
Definition MinFromTime (t : Z) : Z := (t / msPerMinute) mod 60.

Definition MakeTime (hour min sec ms : Z) : Z :=
  hour * msPerHour + min * msPerMinute + sec * msPerSecond + ms.
Definition MakeDate (day time : Z) : Z := day * msPerDay + time.

(** ** The host *)

Class Host : Type := {
  (** [parseFloat(string)] *)
  parseFloat : string -> number;
  (** [parseInt(string)]: an integer, or [None] for NaN. *)
  parseInt : string -> option Z;
  (** date-fns [format(date, pattern)] of a valid date, given by its time
      value *)
  format : Z -> string -> string;
  (** [date.toLocaleString()] *)
  toLocaleString : Date -> string;
  (** [number.toFixed(digits)] *)
  toFixed : number -> nat -> string;
  (** [LocalTZA(t, isUTC)]: the offset of local time from UTC, in
      milliseconds, at the instant [t] when [isUTC] is true, and at the
      local time [t] when it is false.  A local time that occurs twice
      (clocks set back) or never (clocks set forward) is read with the
      offset in force before the change. *)
  LocalTZA : Z -> bool -> Z
}.

Section HostDates.
Context {H : Host}.

Definition LocalTime (t : Z) : Z := t + LocalTZA t true.
Definition UTC (t : Z) : Z := t - LocalTZA t false.

(** [date.getMinutes()] *)
Definition getMinutes (d : Date) : number :=
  match d with
  | Some t => ofZ (MinFromTime (LocalTime t))
  | None => NaN
  end.

(** [date.setMinutes(min, sec, ms)]: the new time value.  The receiver is
    updated in place as well; no caller reads it again. *)
Definition setMinutes (d : Date) (min sec ms : number) : number :=
  match d, truncate min, truncate sec, truncate ms with
  | Some t0, Some m, Some s, Some milli =>
      let t := LocalTime t0 in
      let date := MakeDate (Day t) (MakeTime (HourFromTime t) m s milli) in
      numOf (TimeClip (UTC date))
  | _, _, _, _ => NaN
  end.

(** date-fns [fromUnixTime(unixTime)] *)
Definition fromUnixTime (unixTime : number) : Date :=
  new_Date (mul unixTime (ofZ 1000)).
End HostDates.

(** ** Data model: the records of the four GraphQL queries *)

Record TokenRef : Type := { symbol : string }.

Module Swap.
Record t : Type := {
  id : string;
  amountUSD : string;
  timestamp : string;
  token0 : TokenRef;
  token1 : TokenRef
}.
End Swap.

Module Token.
Record t : Type := {
  id : string;
  symbol : string;
  volumeUSD : string
}.
End Token.

Module Pool.
Record t : Type := {
  id : string;
  token0 : TokenRef;
  token1 : TokenRef;
  volumeUSD : string
}.
End Pool.

Module DayData.
Record t : Type := {
  date : Z;
  tvlUSD : string;
  volumeUSD : string;
  feesUSD : string
}.
End DayData.

Record SwapsData : Type := { swaps : list Swap.t }.
Record TokensData : Type := { tokens : list Token.t }.
Record PoolsData : Type := { pools : list Pool.t }.
Record DayDatasData : Type := { uniswapDayDatas : list DayData.t }.

(** ** The query layer: what [useQuery] hands to a section *)

Record ApolloError : Type := { message : string }.

Record QueryResult (D : Type) : Type := {
  loading : bool;
  error : option ApolloError;
  data : option D
}.

(** ** Rendered output *)

(** One entry of a dataset's [data] array. *)
Inductive datum : Type :=
| Value (v : number)
| Raw (s : string)
| XY (x : Date) (y : number)
| XYCount (x : Date) (y : number) (count : nat)
| XYLabel (x : Date) (y : number) (label : string).

Definition datum_x (d : datum) : Date :=
  match d with
  | XY x _ | XYCount x _ _ | XYLabel x _ _ => x
  | Value _ | Raw _ => None
  end.

Definition datum_y (d : datum) : number :=
  match d with
  | XY _ y | XYCount _ y _ | XYLabel _ y _ => y
  | Value v => v
  | Raw _ => NaN
  end.

Module Dataset.
Record t : Type := { label : string; data : list datum }.
End Dataset.

Record ChartData : Type := {
  labels : option (list string);
  datasets : list Dataset.t
}.

(** The element tree a component returns.  Styling props (colours, chart
    options, spacing, aria attributes) are left out: nothing reads them
    back. *)
#[local] Set Warnings "-register-all".
Inductive Element : Type :=
| Text (s : string)
| Elem (tag : string) (children : list Element)
| Line (chart : ChartData)
| Bar (chart : ChartData).

(** All text below an element, in document order. *)
Fixpoint textContent (e : Element) : string :=
  match e with
  | Text s => s
  | Elem _ cs =>
      (fix go (l : list Element) : string :=
         match l with
         | [] => ""
         | c :: l' => (textContent c ++ go l')%string
         end) cs
  | Line _ | Bar _ => ""
  end.

(** All charts below an element, in document order. *)
Fixpoint charts (e : Element) : list ChartData :=
  match e with
  | Text _ => []
  | Elem _ cs =>
      (fix go (l : list Element) : list ChartData :=
         match l with
         | [] => []
         | c :: l' => charts c ++ go l'
         end) cs
  | Line c | Bar c => [c]
  end.

(** [m] occurs in [s]. *)
Definition contains (s m : string) : Prop :=
  exists pre post : string, s = (pre ++ m ++ post)%string.

(** What evaluating a component does: return an element, or throw. *)
Inductive outcome (A : Type) : Type :=
| Returns (a : A)
| Throws (what : string).
Arguments Returns {A} a.
Arguments Throws {A} what.

Definition bind {A B : Type} (c : outcome A) (k : A -> outcome B) : outcome B :=
  match c with
  | Returns a => k a
  | Throws w => Throws w
  end.

Notation "x <- c ;; k" := (bind c (fun x => k))
  (at level 61, c at next level, right associativity).

(** [array.slice(i, j)] for [0 <= i <= j]. *)
Definition slice {A : Type} (l : list A) (i j : nat) : list A :=
  firstn (j - i) (skipn i l).

(** [array.reduce((sum, e) => sum + f(e), 0)] *)
Definition reduce_sum {A : Type} (f : A -> number) (l : list A) : number :=
  fold_left (fun sum e => add sum (f e)) l (ofZ 0).

(** [array.map(f)] with a callback that may throw. *)
Fixpoint traverse {A B : Type} (f : A -> outcome B) (l : list A) : outcome (list B) :=
  match l with
  | [] => Returns []
  | a :: rest =>
      b <- f a ;;
      bs <- traverse f rest ;;
      Returns (b :: bs)
  end.

(** ** Components shared by the current app and the two bucketing variants *)

Section Shared.
Context {H : Host}.

(** date-fns [format(date, pattern)]: an invalid date is refused. *)
Definition formatDate (date : Date) (pattern : string) : outcome string :=
  match date with
  | Some t => Returns (format t pattern)
  | None => Throws "RangeError: Invalid time value"
  end.

(** [const ErrorMessage = ({ message }) => <Alert ...>Error: {message}</Alert>] *)
Definition ErrorMessage (message : string) : Element :=
  Elem "Alert" [Text "Error: "; Text message].

Definition LoadingSkeleton : Element :=
  Elem "Stack"
    [Elem "Skeleton" []; Elem "Skeleton" []; Elem "Skeleton" []; Elem "Skeleton" []].

(** The card of one recent swap: the pair, then the amount as the variant
    prints it, then the time. *)
Definition swapCard (amount : list Element) (s : Swap.t) (shown : string) : Element :=
  Elem "Card"
    [Elem "CardContent"
       [Elem "Typography"
          ([Text (symbol (Swap.token0 s)); Text "/"; Text (symbol (Swap.token1 s))]
           ++ amount);
        Elem "Typography" [Text "Timestamp: "; Text shown]]].

(** [TokenVolume]: identical in every variant that has [ErrorMessage]. *)
Definition TokenVolume (q : QueryResult TokensData) : outcome Element :=
  if loading q then Returns LoadingSkeleton else
  match error q with
  | Some e => Returns (ErrorMessage (message e))
  | None =>
      match data q with
      | None => Throws "TypeError: Cannot read properties of undefined (reading 'tokens')"
      | Some d =>
          let tokens := tokens d in
          let chartData :=
            {| labels := Some (map (fun token => Token.symbol token) tokens);
               datasets :=
                 [{| Dataset.label := "Volume USD";
                     Dataset.data := map (fun token => Value (parseFloat (Token.volumeUSD token))) tokens |}] |} in
          Returns
            (Elem "Card"
               [Elem "CardContent"
                  [Elem "Typography" [Text "Top 5 Tokens by Volume"];
                   Bar chartData]])
      end
  end.

(** [TopPairs] *)
Definition TopPairs (q : QueryResult PoolsData) : outcome Element :=
  if loading q then Returns LoadingSkeleton else
  match error q with
  | Some e => Returns (ErrorMessage (message e))
  | None =>
      match data q with
      | None => Throws "TypeError: Cannot read properties of undefined (reading 'pools')"
      | Some d =>
          let pairs := pools d in
          let chartData :=
            {| labels :=
                 Some (map (fun pair =>
                              (symbol (Pool.token0 pair) ++ "/" ++ symbol (Pool.token1 pair))%string)
                           pairs);
               datasets :=
                 [{| Dataset.label := "Volume USD";
                     Dataset.data := map (fun pair => Value (parseFloat (Pool.volumeUSD pair))) pairs |}] |} in
          Returns
            (Elem "Card"
               [Elem "CardContent"
                  [Elem "Typography" [Text "Top 5 Pairs by Volume"];
                   Bar chartData]])
      end
  end.

(** [ProtocolStats]: three line charts over one shared label axis. *)
Definition ProtocolStats (q : QueryResult DayDatasData) : outcome Element :=
  if loading q then Returns LoadingSkeleton else
  match error q with
  | Some e => Returns (ErrorMessage (message e))
  | None =>
      match data q with
      | None =>
          Throws "TypeError: Cannot read properties of undefined (reading 'uniswapDayDatas')"
      | Some d =>
          let uniswapDayDatas := uniswapDayDatas d in
          labels <-
            traverse
              (fun entry =>
                 formatDate (new_Date (mul (ofZ (DayData.date entry)) (ofZ 1000))) "MMM d")
              uniswapDayDatas ;;
          let createChartData (label : string) (data : list datum) :=
            {| labels := Some labels;
               datasets := [{| Dataset.label := label; Dataset.data := data |}] |} in
          let tvlData :=
            createChartData "Total Value Locked (USD)"
              (map (fun entry => Raw (DayData.tvlUSD entry)) uniswapDayDatas) in
          let volumeData :=
            createChartData "Volume (USD)"
              (map (fun entry => Raw (DayData.volumeUSD entry)) uniswapDayDatas) in
          let feesData :=
            createChartData "Fees (USD)"
              (map (fun entry => Raw (DayData.feesUSD entry)) uniswapDayDatas) in
          let card (title : string) (c : ChartData) :=
            Elem "Card"
              [Elem "CardContent"
                 [Elem "Typography" [Text title]; Elem "div" [Line c]]] in
          Returns
            (Elem "Stack"
               [Elem "Typography" [Text "Protocol Statistics (Last 30 Days)"];
                card "Total Value Locked (TVL)" tvlData;
                card "Volume" volumeData;
                card "Fees" feesData])
      end
  end.
End Shared.

(** ** The current app ([src/src/index.js]): one bucket per 100 swaps *)

Module Current.
Section Swaps.
Context {H : Host}.

(** The body of the loop: the point pushed for one chunk. *)
Definition bucket (chunk : list Swap.t) : datum :=
  let totalAmountUSD :=
    reduce_sum (fun swap => parseFloat (Swap.amountUSD swap)) chunk in
  let avgTimestamp :=
    div (reduce_sum (fun swap => numOf (parseInt (Swap.timestamp swap))) chunk)
        (ofNat (length chunk)) in
  XY (new_Date (mul avgTimestamp (ofZ 1000))) totalAmountUSD.

(** [for (let i = 0; i < swaps.length; i += 100) { ... aggregateData.push(...) }]
    entered at index [i] with the points pushed so far. *)
Equations? aggregateLoop (swaps : list Swap.t) (i : nat) (aggregateData : list datum)
  : list datum by wf (length swaps - i)%nat lt :=
  aggregateLoop swaps i aggregateData with lt_dec i (length swaps) := {
    | left _ =>
        let chunk := slice swaps i (i + 100) in
        aggregateLoop swaps (i + 100) (aggregateData ++ [bucket chunk]);
    | right _ => aggregateData }.
Proof. lia. Qed.

Definition aggregateData (swaps : list Swap.t) : list datum :=
  aggregateLoop swaps 0 [].

Definition Swaps (q : QueryResult SwapsData) : outcome Element :=
  if loading q then Returns LoadingSkeleton else
  match error q with
  | Some e => Returns (ErrorMessage (message e))
  | None =>
      let swaps := match data q with Some d => swaps d | None => [] end in
      let chartData :=
        {| labels := None;
           datasets :=
             [{| Dataset.label := "Amount USD (Aggregated Every 100 Swaps)";
                 Dataset.data := aggregateData swaps |}] |} in
      latestSwaps <-
        traverse
          (fun swap =>
             shown <-
               formatDate (new_Date (mul (numOf (parseInt (Swap.timestamp swap))) (ofZ 1000)))
                          "PPpp" ;;
             Returns (swap, shown))
          (slice swaps 0 5) ;;
      Returns
        (Elem "Container"
           [Elem "Typography" [Text "Recent Swaps"];
            Elem "Stack"
              [Elem "Card"
                 [Elem "CardContent"
                    [Elem "Typography" [Text "Swap Amounts (Aggregated Every 100 Swaps)"];
                     Elem "div" [Line chartData]]];
               Elem "Card"
                 [Elem "CardContent"
                    (Elem "Typography" [Text "Most Recent Swap Details"]
                     :: map (fun sw =>
                               swapCard [Text ": "; Text (Swap.amountUSD (fst sw)); Text " USD"]
                                        (fst sw) (snd sw))
                            latestSwaps)]]])
  end.
End Swaps.

Section Root.
Context {H : Host}.

(** [App]: the four sections in a fixed column, each with the state of its
    own query.  There is no error boundary: a section that throws takes
    the render of the whole page with it. *)
Definition App (swapsQuery : QueryResult SwapsData) (tokensQuery : QueryResult TokensData)
    (pairsQuery : QueryResult PoolsData) (statsQuery : QueryResult DayDatasData)
  : outcome Element :=
  swapsSection <- Swaps swapsQuery ;;
  tokenSection <- TokenVolume tokensQuery ;;
  pairsSection <- TopPairs pairsQuery ;;
  statsSection <- ProtocolStats statsQuery ;;
  Returns
    (Elem "Container"
       [Elem "Stack" [swapsSection; tokenSection; pairsSection; statsSection]]).
End Root.
End Current.

(** ** Arrays and objects of the host language *)

Section ArraySort.
Variable A : Type.
(** The comparator [(a, b) => ...]; a [NaN] result counts as [+0]. *)
Variable compareFn : A -> A -> number.

Fixpoint insert (a : A) (sorted : list A) : list A :=
  match sorted with
  | [] => [a]
  | b :: rest =>
      if positive (compareFn a b) then b :: insert a rest else a :: sorted
  end.

(** [array.sort(compareFn)].  The sort is stable; for a consistent
    comparator every stable sort returns this list.  For an inconsistent
    one (a [NaN] difference) the language leaves the order to the
    implementation, and this is one admissible order. *)
Definition Array_sort (l : list A) : list A := fold_right insert [] l.
End ArraySort.

(** An object used as a map from time values to [V].  A property key is the
    decimal string of a time value (or ["NaN"]); the key is kept as the time
    value itself, which that string determines and from which [parseInt]
    reads it back.  Properties are held in creation order. *)
Section TimeKeyed.
Variable V : Type.

Definition key : Type := option Z.
Definition object : Type := list (key * V).

Definition key_eqb (a b : key) : bool :=
  match a, b with
  | Some m, Some n => Z.eqb m n
  | None, None => true
  | _, _ => false
  end.

(** [o[k]]; [None] is [undefined]. *)
Fixpoint get (o : object) (k : key) : option V :=
  match o with
  | [] => None
  | (k', v) :: rest => if key_eqb k k' then Some v else get rest k
  end.

(** Update the value held at [k] in place. *)
Fixpoint modify (f : V -> V) (k : key) (o : object) : object :=
  match o with
  | [] => []
  | (k', v) :: rest =>
      if key_eqb k k' then (k', f v) :: rest else (k', v) :: modify f k rest
  end.

(** [o[k] = v] *)
Definition set (o : object) (k : key) (v : V) : object :=
  match get o k with
  | Some _ => modify (fun _ => v) k o
  | None => o ++ [(k, v)]
  end.

(** A key that is an array index: an integer from 0 to 2^32 - 2. *)
Definition isArrayIndex (k : key) : bool :=
  match k with
  | Some n => (0 <=? n) && (n <? 4294967295)
  | None => false
  end.

(** [Object.entries(o)]: array-index keys first, ascending, then the
    other keys in creation order. *)
Definition Object_entries (o : object) : list (key * V) :=
  Array_sort (fun a b => sub (numOf (fst a)) (numOf (fst b)))
             (filter (fun e => isArrayIndex (fst e)) o)
  ++ filter (fun e => negb (isArrayIndex (fst e))) o.
End TimeKeyed.

(** ** The ten-minute variant ([.history], first version) *)

Module TenMinute.
Record bucket : Type := { totalAmount : number; count : nat }.

Section Swaps.
Context {H : Host}.

(** The key of a swap: its timestamp, with the local-time minutes rounded
    down to a multiple of ten and the seconds cleared. *)
Definition timeKey (swap : Swap.t) : key :=
  let timestamp := fromUnixTime (numOf (parseInt (Swap.timestamp swap))) in
  let minutes := mul (Math_floor (div (getMinutes timestamp) (ofZ 10))) (ofZ 10) in
  let roundedTimestamp := new_Date (setMinutes timestamp minutes (ofZ 0) (ofZ 0)) in
  truncate (getTime roundedTimestamp).

(** The callback of [swaps.reduce]. *)
Definition accumulate (acc : object bucket) (swap : Swap.t) : object bucket :=
  let timeKey := timeKey swap in
  let acc :=
    match get acc timeKey with
    | None => set acc timeKey {| totalAmount := ofZ 0; count := 0 |}
    | Some _ => acc
    end in
  let acc :=
    modify (fun b => {| totalAmount := add (totalAmount b) (parseFloat (Swap.amountUSD swap));
                        count := count b |}) timeKey acc in
  modify (fun b => {| totalAmount := totalAmount b; count := count b + 1 |}) timeKey acc.

Definition aggregatedData (swaps : list Swap.t) : object bucket :=
  fold_left accumulate swaps [].

Definition chartData (swaps : list Swap.t) : list datum :=
  Array_sort (fun a b => sub (getTime (datum_x a)) (getTime (datum_x b)))
    (map (fun entry =>
            XYCount (new_Date (numOf (fst entry))) (totalAmount (snd entry)) (count (snd entry)))
         (Object_entries (aggregatedData swaps))).

Definition Swaps (q : QueryResult SwapsData) : outcome Element :=
  if loading q then Returns LoadingSkeleton else
  match error q with
  | Some e => Returns (ErrorMessage (message e))
  | None =>
      let swaps := match data q with Some d => swaps d | None => [] end in
      let lineChartData :=
        {| labels := None;
           datasets :=
             [{| Dataset.label := "10-Minute Swap Volume (USD)";
                 Dataset.data := chartData swaps |}] |} in
      latestSwaps <-
        traverse
          (fun swap =>
             shown <-
               formatDate (fromUnixTime (numOf (parseInt (Swap.timestamp swap)))) "PPpp" ;;
             Returns (swap, shown))
          (slice swaps 0 5) ;;
      Returns
        (Elem "Container"
           [Elem "Typography" [Text "Swap Activity"];
            Elem "Stack"
              [Elem "Card"
                 [Elem "CardContent"
                    [Elem "Typography" [Text "10-Minute Swap Volume"];
                     Elem "div" [Line lineChartData]]];
               Elem "Card"
                 [Elem "CardContent"
                    (Elem "Typography" [Text "Most Recent Swaps"]
                     :: map (fun sw =>
                               swapCard
                                 [Text ": $";
                                  Text (toFixed (parseFloat (Swap.amountUSD (fst sw))) 2)]
                                 (fst sw) (snd sw))
                            latestSwaps)]]])
  end.
End Swaps.
End TenMinute.

(** ** The pagination variant ([.history], second version) *)

Module Paginated.
Definition pageSize : nat := 100.

(** The [updateQuery] callback of [loadMore], run with the component's
    [page] state: the merged query data and the page state afterwards
    ([setPage(page + 1)] unless there is nothing to merge). *)
Definition updateQuery (page : nat) (prev : SwapsData) (fetchMoreResult : option SwapsData)
  : SwapsData * nat :=
  match fetchMoreResult with
  | None => (prev, page)
  | Some more => ({| swaps := swaps prev ++ swaps more |}, (page + 1)%nat)
  end.

(** [loadMore]: [fetchMore] asks for the page after [page] and merges what
    comes back.  [fetchMore] stands for the network: from the [skip]
    variable to the fetched page, if any. *)
Definition loadMore (fetchMore : nat -> option SwapsData) (page : nat) (prev : SwapsData)
  : SwapsData * nat :=
  updateQuery page prev (fetchMore ((page + 1) * pageSize)%nat).

Section Swaps.
Context {H : Host}.

(** One point per swap, labelled with its formatted time. *)
Definition aggregateData (swaps : list Swap.t) : outcome (list datum) :=
  traverse
    (fun swap =>
       let x := new_Date (mul (numOf (parseInt (Swap.timestamp swap))) (ofZ 1000)) in
       label <- formatDate x "PPpp" ;;
       Returns (XYLabel x (parseFloat (Swap.amountUSD swap)) label))
    swaps.

Definition Swaps (q : QueryResult SwapsData) : outcome Element :=
  if loading q && match data q with Some _ => false | None => true end
  then Returns LoadingSkeleton else
  match error q with
  | Some e => Returns (ErrorMessage (message e))
  | None =>
      let swaps := match data q with Some d => swaps d | None => [] end in
      aggregateData <- aggregateData swaps ;;
      let chartData :=
        {| labels := None;
           datasets :=
             [{| Dataset.label := "Amount USD"; Dataset.data := aggregateData |}] |} in
      latestSwaps <-
        traverse
          (fun swap =>
             shown <-
               formatDate (new_Date (mul (numOf (parseInt (Swap.timestamp swap))) (ofZ 1000)))
                          "PPpp" ;;
             Returns (swap, shown))
          (slice swaps 0 5) ;;
      Returns
        (Elem "Container"
           [Elem "Typography" [Text "Recent Swaps"];
            Elem "Stack"
              [Elem "Card"
                 [Elem "CardContent"
                    [Elem "Typography" [Text "Swap Amounts"];
                     Line chartData]];
               Elem "Card"
                 [Elem "CardContent"
                    (Elem "Typography" [Text "Recent Swap Details"]
                     :: map (fun sw =>
                               swapCard [Text ": "; Text (Swap.amountUSD (fst sw)); Text " USD"]
                                        (fst sw) (snd sw))
                            latestSwaps
                     ++ [if loading q
                         then Elem "CircularProgress" []
                         else Elem "button" [Text "Load More"]])]]])
  end.
End Swaps.
End Paginated.

(** ** The original variant ([.history], third version): chunks of 100
    placed at their first timestamp *)

Module Original.
Section Swaps.
Context {H : Host}.

(** [chunk[i].timestamp]: reading a property of [undefined] throws. *)
Definition timestampAt (chunk : list Swap.t) (i : nat) : outcome string :=
  match nth_error chunk i with
  | Some swap => Returns (Swap.timestamp swap)
  | None => Throws "TypeError: Cannot read properties of undefined (reading 'timestamp')"
  end.

(** The body of the loop. *)
Definition bucket (chunk : list Swap.t) : outcome datum :=
  let totalAmountUSD :=
    reduce_sum (fun swap => parseFloat (Swap.amountUSD swap)) chunk in
  first <- timestampAt chunk 0 ;;
  let startTime := new_Date (mul (numOf (parseInt first)) (ofZ 1000)) in
  last <- timestampAt chunk (length chunk - 1) ;;
  let endTime := new_Date (mul (numOf (parseInt last)) (ofZ 1000)) in
  Returns (XYLabel startTime totalAmountUSD
             (toLocaleString startTime ++ " - " ++ toLocaleString endTime)%string).

Equations? aggregateLoop (swaps : list Swap.t) (i : nat) (aggregateData : list datum)
  : outcome (list datum) by wf (length swaps - i)%nat lt :=
  aggregateLoop swaps i aggregateData with lt_dec i (length swaps) := {
    | left _ =>
        let chunk := slice swaps i (i + 100) in
        match bucket chunk with
        | Returns point => aggregateLoop swaps (i + 100) (aggregateData ++ [point])
        | Throws what => Throws what
        end;
    | right _ => Returns aggregateData }.
Proof. lia. Qed.

Definition aggregateData (swaps : list Swap.t) : outcome (list datum) :=
  aggregateLoop swaps 0 [].

(** [Swaps]: what [console.error] was given, and the outcome of the
    render. *)
Definition Swaps (q : QueryResult SwapsData)
  : list (string * ApolloError) * outcome Element :=
  if loading q then ([], Returns (Elem "CircularProgress" [])) else
  match error q with
  | Some e =>
      ([("Error fetching data:", e)],
       Returns (Elem "Typography" [Text "Error: "; Text (message e)]))
  | None =>
      ([],
       match data q with
       | None => Throws "TypeError: Cannot read properties of undefined (reading 'swaps')"
       | Some d =>
           let swaps := swaps d in
           aggregateData <- aggregateData swaps ;;
           let chartData :=
             {| labels := None;
                datasets :=
                  [{| Dataset.label := "Amount USD (Aggregated Every 100 Swaps)";
                      Dataset.data := aggregateData |}] |} in
           let latestSwaps :=
             map (fun swap =>
                    (swap,
                     toLocaleString
                       (new_Date (mul (numOf (parseInt (Swap.timestamp swap))) (ofZ 1000)))))
                 (slice swaps 0 5) in
           Returns
             (Elem "Container"
                [Elem "Typography" [Text "Recent Swaps"];
                 Elem "Stack"
                   [Elem "Card"
                      [Elem "CardContent"
                         [Elem "Typography" [Text "Swap Amounts Aggregated Every 100 Swaps"];
                          Line chartData]];
                    Elem "Card"
                      [Elem "CardContent"
                         (Elem "Typography" [Text "Recent Swap Details"]
                          :: map (fun sw =>
                                    swapCard [Text ": "; Text (Swap.amountUSD (fst sw)); Text " USD"]
                                             (fst sw) (snd sw))
                                 latestSwaps)]]])
       end)
  end.
End Swaps.
End Original.

(** ** A host for worked examples

    [parseInt] and [parseFloat] on ASCII strings: leading white space, a
    sign, then the longest prefix that is a literal, [NaN] when there is
    none.  Not read: the literal [Infinity], which the number model cannot
    hold.  The three display functions print the time value or the exact
    fraction in decimal digits; they stand in for the locale-dependent
    ones.  The time zones are given by their rules. *)

Module ExampleHost.
Definition digit (radix : Z) (c : ascii) : option Z :=
  let n := Z.of_nat (nat_of_ascii c) in
  let d :=
    if (48 <=? n) && (n <=? 57) then n - 48
    else if (97 <=? n) && (n <=? 122) then n - 87
    else if (65 <=? n) && (n <=? 90) then n - 55
    else radix in
  if d <? radix then Some d else None.

(** Read the digits at the front of [s] onto [acc]: the value, how many
    digits were read, and the rest. *)
Fixpoint digits (radix : Z) (s : string) (acc : Z) (read : nat) : Z * nat * string :=
  match s with
  | String c rest =>
      match digit radix c with
      | Some d => digits radix rest (radix * acc + d) (S read)
      | None => (acc, read, s)
      end
  | EmptyString => (acc, read, s)
  end.

Definition isWhiteSpace (c : ascii) : bool :=
  let n := nat_of_ascii c in
  ((9 <=? n) && (n <=? 13))%nat || (n =? 32)%nat.

Fixpoint trimStart (s : string) : string :=
  match s with
  | String c rest => if isWhiteSpace c then trimStart rest else s
  | EmptyString => s
  end.

(** Strip a sign: the sign and what follows it. *)
Definition signed (s : string) : Z * string :=
  match s with
  | String "-" rest => (-1, rest)
  | String "+" rest => (1, rest)
  | _ => (1, s)
  end.

Definition parseInt (s : string) : option Z :=
  let '(sign, body) := signed (trimStart s) in
  let '(radix, body) :=
    match body with
    | String "0" (String "x" rest) | String "0" (String "X" rest) => (16, rest)
    | _ => (10, body)
    end in
  let '(n, read, _) := digits radix body 0 0 in
  match read with
  | O => None
  | S _ => Some (sign * n)
  end.

(** The exponent part at the front of [s], if there is one. *)
Definition exponent (s : string) : Z :=
  match s with
  | String "e" rest | String "E" rest =>
      let '(sign, body) := signed rest in
      let '(n, read, _) := digits 10 body 0 0 in
      match read with
      | O => 0
      | S _ => sign * n
      end
  | _ => 0
  end.

Definition parseFloat (s : string) : number :=
  let '(sign, body) := signed (trimStart s) in
  let '(whole, read, rest) := digits 10 body 0 0 in
  let '(mantissa, fraction, rest) :=
    match rest with
    | String "." after => digits 10 after whole 0
    | _ => (whole, O, rest)
    end in
  match (read + fraction)%nat with
  | O => NaN
  | S _ =>
      let e := exponent rest - Z.of_nat fraction in
      Num (Q2Qc (if 0 <=? e
                 then inject_Z (sign * mantissa * 10 ^ e)
                 else Qmake (sign * mantissa) (Z.to_pos (10 ^ (- e)))))
  end.

Definition printZ (z : Z) : string := NilZero.string_of_int (Z.to_int z).

Definition printDate (d : Date) : string :=
  match d with
  | Some t => printZ t
  | None => "Invalid Date"
  end.

Definition printNumber (n : number) : string :=
  match n with
  | Num q => (printZ (Qnum q) ++ "/" ++ printZ (Zpos (Qden q)))%string
  | NaN => "NaN"
  end.

(** A host with the time zone rules [zone]. *)
Definition host (zone : Z -> bool -> Z) : Host :=
  Build_Host parseFloat parseInt (fun t _ => printZ t) printDate
             (fun n _ => printNumber n) zone.

(** A zone that keeps one offset for ever. *)
Definition fixed (offset : Z) : Z -> bool -> Z := fun _ _ => offset.

Definition utc : Host := host (fixed 0).

(** UTC-05:00 all year. *)
Definition minus0500 : Host := host (fixed (- (5 * msPerHour))).

(** UTC+12:45 all year: the clock of Pacific/Chatham from 1946 until its
    first daylight saving in November 1974, and so at the epoch. *)
Definition plus1245 : Host := host (fixed (12 * msPerHour + 45 * msPerMinute)).

(** The instant at which America/New_York set its clocks back from 02:00
    EDT (UTC-04:00) to 01:00 EST (UTC-05:00): 2024-11-03T06:00:00Z. *)
Definition fallBack2024 : Z := 1730613600000.

(** America/New_York between its clock changes of 10 March 2024 and
    9 March 2025.  The local hour from 01:00 to 02:00 of 3 November occurs
    twice; a local time in it is read as the first occurrence, in EDT. *)
Definition newYorkRules (t : Z) (isUTC : bool) : Z :=
  let EDT := - (4 * msPerHour) in
  let EST := - (5 * msPerHour) in
  if isUTC
  then if t <? fallBack2024 then EDT else EST
  else if t <? fallBack2024 + EDT then EDT else EST.

Definition newYork : Host := host newYorkRules.



End ExampleHost.

(** * Vocabulary of the properties *)

(** Consecutive runs of [S n] elements, the last one shorter when the
    length is not a multiple of [S n]. *)
Equations? chunks {A : Type} (n : nat) (l : list A) : list (list A) by wf (length l) lt :=
  chunks n [] := [];
  chunks n (a :: l) := firstn (S n) (a :: l) :: chunks n (skipn (S n) (a :: l)).
Proof. rewrite length_skipn. lia. Qed.

(** A unix time, in seconds, that [Date] can hold. *)
Definition inDateRange (t : Z) : Prop :=
  - 8640000000000 <= t <= 8640000000000.

Section Vocabulary.
Context {H : Host}.

(** The sum of the raw USD amounts of a swap list. *)
Definition rawTotal (swaps : list Swap.t) : number :=
  reduce_sum (fun swap => parseFloat (Swap.amountUSD swap)) swaps.

(** The sum of the totals of a bucket sequence. *)
Definition bucketTotal (points : list datum) : number :=
  reduce_sum datum_y points.

(** The list is as fetched: every timestamp parses to a time that [Date]
    can hold, and they descend. *)
Definition fetchedDescending (swaps : list Swap.t) : Prop :=
  exists ts : list Z,
    map (fun swap => parseInt (Swap.timestamp swap)) swaps = map Some ts
    /\ Sorted Z.ge ts
    /\ Forall inDateRange ts.

(** Every swap of the list gets a ten-minute key that is a valid time. *)
Definition validKeys (swaps : list Swap.t) : Prop :=
  Forall (fun swap => TenMinute.timeKey swap <> None) swaps.

(** The key of a swap at unix time [t]: the start of the local ten-minute
    interval of [t], taken back to UTC. *)
Definition keyOf (t : Z) : key :=
  match TimeClip (t * 1000) with
  | Some ms => TimeClip (UTC (600000 * (LocalTime ms / 600000)))
  | None => None
  end.

(** The zone is at the offset [z] around unix time [t]: at the instant
    itself, and at the start of the local ten-minute interval that holds
    it. *)
Definition zoneSteady (z t : Z) : Prop :=
  LocalTZA (1000 * t) true = z
  /\ LocalTZA (600000 * ((1000 * t + z) / 600000)) false = z.

(** The point the original variant pushes for a chunk it can read. *)
Definition Original_point (chunk : list Swap.t) : datum :=
  match Original.bucket chunk with
  | Returns point => point
  | Throws _ => XY None NaN
  end.
End Vocabulary.

(** [a] is a valid date no later than the valid date [b]. *)
Definition timeLe (a b : Date) : Prop :=
  match a, b with
  | Some s, Some t => s <= t
  | _, _ => False
  end.

(** The points are in ascending time order: each one no later than all
    that follow it. *)
Definition ascending (points : list datum) : Prop :=
  StronglySorted timeLe (map datum_x points).

(** The points are in descending time order. *)
Definition descending (points : list datum) : Prop :=
  StronglySorted (fun a b => timeLe b a) (map datum_x points).

(** The sum of the totals held in the object of the ten-minute reducer. *)
Definition objectTotal (o : object TenMinute.bucket) : number :=
  reduce_sum (fun e => TenMinute.totalAmount (snd e)) o.

(** Two swaps that the hosts [H1] and [H2] read alike: the same parsed
    amount and the same parsed timestamp. *)
Definition readAlike (H1 H2 : Host) (s1 s2 : Swap.t) : Prop :=
  @parseFloat H1 (Swap.amountUSD s1) = @parseFloat H2 (Swap.amountUSD s2)
  /\ @parseInt H1 (Swap.timestamp s1) = @parseInt H2 (Swap.timestamp s2).

Definition sumZ (l : list Z) : Z := fold_right Z.add 0 l.

(** The time, in milliseconds, the current app gives a chunk with the
    timestamps [ts]. *)
Definition averageMs (ts : list Z) : Z :=
  Z.quot (sumZ ts * 1000) (Z.of_nat (length ts)).

(** The [data] arrays handed to the charts of a page, in document order. *)
Definition dataSeries (page : Element) : list (list datum) :=
  flat_map (fun c => map Dataset.data (datasets c)) (charts page).

(** A query that succeeded with [d]. *)
Definition succeeded (D : Type) (d : option D) : QueryResult D :=
  {| loading := false; error := None; data := d |}.

(** A query that failed with [e], whatever data the cache holds. *)
Definition failed (D : Type) (e : ApolloError) (d : option D) : QueryResult D :=
  {| loading := false; error := Some e; data := d |}.

Definition outcome_map (A B : Type) (f : A -> B) (c : outcome A) : outcome B :=
  match c with
  | Returns a => Returns (f a)
  | Throws w => Throws w
  end.

Definition exampleSwap (amountUSD timestamp : string) : Swap.t :=
  {| Swap.id := "0x1"; Swap.amountUSD := amountUSD; Swap.timestamp := timestamp;
     Swap.token0 := {| symbol := "WETH" |}; Swap.token1 := {| symbol := "USDC" |} |}.

(** The swaps of a list that fall into the ten-minute bucket with key
    [k], in list order. *)
Definition members {H : Host} (k : key) (l : list Swap.t) : list Swap.t :=
  filter (fun swap => key_eqb k (TenMinute.timeKey swap)) l.

(** The point the ten-minute chart shows for the key [k] of a list. *)
Definition pointOf {H : Host} (k : key) (l : list Swap.t) : datum :=
  XYCount k
    (reduce_sum (fun swap => parseFloat (Swap.amountUSD swap)) (members k l))
    (length (members k l)).

(** The [count] of a point, 0 where it has none. *)
Definition datum_count (d : datum) : nat :=
  match d with
  | XYCount _ _ count => count
  | _ => 0%nat
  end.

(** The time and the count of a point. *)
Definition timeAndCount (d : datum) : Date * nat := (datum_x d, datum_count d).

(** The time value, in milliseconds, of a swap's timestamp. *)
Definition swapDate {H : Host} (swap : Swap.t) : Date :=
  new_Date (mul (numOf (parseInt (Swap.timestamp swap))) (ofZ 1000)).

(** What one more swap does to the bucket found at a key. *)
Definition addSwap {H : Host} (found : option TenMinute.bucket) (swap : Swap.t)
  : option TenMinute.bucket :=
  let b := match found with
           | Some b => b
           | None => {| TenMinute.totalAmount := ofZ 0; TenMinute.count := 0 |}
           end in
  Some {| TenMinute.totalAmount :=
            add (TenMinute.totalAmount b) (parseFloat (Swap.amountUSD swap));
          TenMinute.count := (TenMinute.count b + 1)%nat |}.

(** ** Sums in doubles

    The sums of amounts as the page computes them, in IEEE binary64
    (round to nearest, ties to even).  Which swaps a bucket holds does not
    depend on the arithmetic: the count buckets are the chunks of 100, and
    a ten-minute bucket holds the swaps with its key, in list order; the
    chart lists the ten-minute buckets by time.  A total adds the amounts
    of its bucket from 0, left to right, as [totals_by_bucket] shows for
    the components; here the additions are those of doubles. *)

Module Doubles.
(** The number a double stands for; [NaN] for a NaN and for the
    infinities, which [number] does not hold. *)
Definition value (x : float) : number :=
  match Prim2SF x with
  | S754_zero _ => ofZ 0
  | S754_finite negative m e =>
      Num (Q2Qc (inject_Z (if negative then Zneg m else Zpos m) * inject_Z 2 ^ e))
  | S754_infinity _ | S754_nan => NaN
  end.

(** [array.reduce((sum, e) => sum + f(e), 0)] *)
Definition sum {A : Type} (f : A -> float) (l : list A) : float :=
  fold_left (fun sum e => PrimFloat.add sum (f e)) l 0%float.


Section Totals.
Context {H : Host}.
(** The double that [parseFloat] returns for the amount of a swap. *)
Variable amount64 : Swap.t -> float.

Definition rawTotal (swaps : list Swap.t) : float := sum amount64 swaps.

(** The swaps of each count bucket, and of each ten-minute bucket in the
    order of the chart. *)
Definition countBuckets (swaps : list Swap.t) : list (list Swap.t) :=
  chunks 99 swaps.
Definition tenMinuteBuckets (swaps : list Swap.t) : list (list Swap.t) :=
  map (fun point => members (datum_x point) swaps) (TenMinute.chartData swaps).

(** The total of each bucket, and their sum. *)
Definition totals (buckets : list (list Swap.t)) : list float :=
  map (sum amount64) buckets.
Definition bucketTotal (buckets : list (list Swap.t)) : float :=
  sum (fun total => total) (totals buckets).


End Totals.
End Doubles.

(** * Properties *)

(** ** Arithmetic of the number model *)

Lemma add_comm (a b : number) : add a b = add b a.
Proof. destruct a, b; simpl; try reflexivity. f_equal. ring. Qed.

Lemma add_assoc (a b c : number) : add a (add b c) = add (add a b) c.
Proof. destruct a, b, c; simpl; try reflexivity. f_equal. ring. Qed.

Lemma add_0_l (a : number) : add (ofZ 0) a = a.
Proof.
  change (ofZ 0) with (Num 0%Qc).
  destruct a; simpl; try reflexivity. f_equal. ring.
Qed.

Lemma add_0_r (a : number) : add a (ofZ 0) = a.
Proof. rewrite add_comm. apply add_0_l. Qed.

Lemma ofZ_add (a b : Z) : add (ofZ a) (ofZ b) = ofZ (a + b).
Proof.
  unfold ofZ, add. f_equal. apply Qc_is_canon.
  unfold Qcplus. cbn [this Q2Qc].
  rewrite !Qred_correct. rewrite inject_Z_plus. reflexivity.
Qed.

Lemma ofZ_mul (a b : Z) : mul (ofZ a) (ofZ b) = ofZ (a * b).
Proof.
  unfold ofZ, mul. f_equal. apply Qc_is_canon.
  unfold Qcmult. cbn [this Q2Qc].
  rewrite !Qred_correct. rewrite inject_Z_mult. reflexivity.
Qed.

Lemma ofZ_sub (a b : Z) : sub (ofZ a) (ofZ b) = ofZ (a - b).
Proof.
  unfold ofZ, sub. f_equal. apply Qc_is_canon.
  unfold Qcminus, Qcplus, Qcopp. cbn [this Q2Qc].
  rewrite !Qred_correct. unfold Z.sub. rewrite inject_Z_plus, inject_Z_opp.
  reflexivity.
Qed.

Lemma Qred_inject_Z (z : Z) : Qred (inject_Z z) = inject_Z z.
Proof. apply Qred_identity. simpl. apply Z.gcd_1_r. Qed.

Lemma this_ofZ (z : Z) : this (Q2Qc (inject_Z z)) = inject_Z z.
Proof. apply Qred_inject_Z. Qed.

Lemma ofZ_inj (a b : Z) : ofZ a = ofZ b -> a = b.
Proof.
  unfold ofZ. intros E.
  assert (E' : Q2Qc (inject_Z a) = Q2Qc (inject_Z b)) by congruence.
  apply (f_equal this) in E'. rewrite !this_ofZ in E'.
  now injection E'.
Qed.

Lemma truncate_ofZ (z : Z) : truncate (ofZ z) = Some z.
Proof.
  unfold truncate, ofZ. rewrite this_ofZ.
  simpl. rewrite Z.quot_1_r. reflexivity.
Qed.

Lemma truncate_numOf (d : option Z) : truncate (numOf d) = d.
Proof. destruct d as [z |]; [apply truncate_ofZ | reflexivity]. Qed.

Lemma TimeClip_inRange (z : Z) : Z.abs z <= maxTime -> TimeClip z = Some z.
Proof. intros B. unfold TimeClip. now rewrite (proj2 (Z.leb_le _ _) B). Qed.

Lemma TimeClip_Some (z t : Z) : TimeClip z = Some t -> t = z /\ Z.abs z <= maxTime.
Proof.
  unfold TimeClip. destruct (Z.leb_spec (Z.abs z) maxTime); [| discriminate].
  intros E. injection E as <-. now split.
Qed.

Lemma new_Date_ofZ (z : Z) : new_Date (ofZ z) = TimeClip z.
Proof.
  unfold new_Date, ofZ. rewrite this_ofZ. fold (ofZ z). rewrite truncate_ofZ.
  unfold TimeClip, Qle_bool, Qabs, inject_Z. cbn [Qnum Qden].
  now rewrite !Z.mul_1_r.
Qed.

(** A date read back from its own time value is the same date. *)
Lemma new_Date_TimeClip (z : Z) : new_Date (numOf (TimeClip z)) = TimeClip z.
Proof.
  destruct (TimeClip z) as [t |] eqn:E; [| reflexivity].
  cbn [numOf]. rewrite new_Date_ofZ.
  apply TimeClip_Some in E. destruct E as [-> B]. now apply TimeClip_inRange.
Qed.

(** A unix time within the range of [Date] is a valid date. *)
Lemma TimeClip_seconds (t : Z) : inDateRange t -> TimeClip (t * 1000) = Some (t * 1000).
Proof. intros B. apply TimeClip_inRange. unfold inDateRange, maxTime in *. lia. Qed.


Lemma positive_ofZ (z : Z) : positive (ofZ z) = (0 <? z).
Proof.
  unfold positive, ofZ, Qccompare. rewrite this_ofZ.
  unfold Qcompare. simpl. rewrite Z.mul_1_r.
  destruct (Z.compare_spec z 0); destruct (Z.ltb_spec 0 z); try reflexivity; lia.
Qed.

Lemma Math_floor_div_ofZ (a b : Z) :
  0 < b -> Math_floor (div (ofZ a) (ofZ b)) = ofZ (a / b).
Proof.
  intros Hb. unfold div, ofZ.
  destruct (Qc_eq_dec (Q2Qc (inject_Z b)) 0) as [E | _].
  - assert (b = 0) by (apply ofZ_inj; unfold ofZ; now f_equal). lia.
  - unfold Math_floor, ofZ. do 2 f_equal.
    unfold Qcdiv, Qcmult, Qcinv. cbn [this Q2Qc].
    rewrite !Qred_correct.
    rewrite Zdiv_Qdiv. reflexivity.
Qed.

(** ** Sums *)

Lemma fold_add_shift (A : Type) (f : A -> number) (l : list A) (a b : number) :
  fold_left (fun sum e => add sum (f e)) l (add a b)
  = add a (fold_left (fun sum e => add sum (f e)) l b).
Proof.
  revert b. induction l as [| e l IH]; intros b; simpl.
  - reflexivity.
  - rewrite <- add_assoc. apply IH.
Qed.

Lemma reduce_sum_nil (A : Type) (f : A -> number) : reduce_sum f [] = ofZ 0.
Proof. reflexivity. Qed.

Lemma reduce_sum_cons (A : Type) (f : A -> number) (a : A) (l : list A) :
  reduce_sum f (a :: l) = add (f a) (reduce_sum f l).
Proof.
  unfold reduce_sum. cbn [fold_left].
  rewrite add_0_l, <- (add_0_r (f a)) at 1. apply fold_add_shift.
Qed.

Lemma reduce_sum_app (A : Type) (f : A -> number) (l1 l2 : list A) :
  reduce_sum f (l1 ++ l2) = add (reduce_sum f l1) (reduce_sum f l2).
Proof.
  induction l1 as [| a l1 IH]; cbn [app].
  - rewrite reduce_sum_nil, add_0_l. reflexivity.
  - rewrite !reduce_sum_cons, IH. apply add_assoc.
Qed.

Lemma reduce_sum_map (A B : Type) (g : A -> B) (f : B -> number) (l : list A) :
  reduce_sum f (map g l) = reduce_sum (fun a => f (g a)) l.
Proof.
  induction l as [| a l IH]; [reflexivity |].
  cbn [map]. rewrite !reduce_sum_cons, IH. reflexivity.
Qed.

Lemma reduce_sum_concat (A : Type) (f : A -> number) (ls : list (list A)) :
  reduce_sum f (concat ls) = reduce_sum (reduce_sum f) ls.
Proof.
  induction ls as [| l ls IH]; [reflexivity |].
  cbn [concat]. rewrite reduce_sum_app, reduce_sum_cons, IH. reflexivity.
Qed.

Lemma reduce_sum_perm (A : Type) (f : A -> number) (l1 l2 : list A) :
  Permutation l1 l2 -> reduce_sum f l1 = reduce_sum f l2.
Proof.
  induction 1 as [| a l1 l2 _ IH | a b l | l1 l2 l3 _ IH1 _ IH2].
  - reflexivity.
  - rewrite !reduce_sum_cons, IH. reflexivity.
  - rewrite !reduce_sum_cons, !add_assoc, (add_comm (f b)). reflexivity.
  - congruence.
Qed.

(** ** Slices and chunks *)

Lemma slice_skipn (A : Type) (l : list A) (i n : nat) :
  slice l i (i + n) = firstn n (skipn i l).
Proof. unfold slice. f_equal. lia. Qed.

Lemma chunks_step (A : Type) (n : nat) (l : list A) :
  l <> [] -> chunks n l = firstn (S n) l :: chunks n (skipn (S n) l).
Proof. destruct l; [congruence |]. intros _. now simp chunks. Qed.

Lemma chunks_nil (A : Type) (n : nat) : chunks n (@nil A) = [].
Proof. now simp chunks. Qed.

Lemma concat_chunks (A : Type) (n : nat) (l : list A) : concat (chunks n l) = l.
Proof.
  funelim (chunks n l); [reflexivity |].
  cbn [concat]. rewrite H. apply firstn_skipn.
Qed.

Lemma chunks_bounds (A : Type) (n : nat) (l : list A) :
  Forall (fun c => (1 <= length c <= S n)%nat) (chunks n l).
Proof.
  funelim (chunks n l); constructor; [| assumption].
  rewrite length_firstn. cbn [length]. lia.
Qed.

Lemma skipn_nonempty (A : Type) (l : list A) (i : nat) :
  (i < length l)%nat -> skipn i l <> [].
Proof.
  intros Hi E. apply (f_equal (@length A)) in E.
  rewrite length_skipn in E. simpl in E. lia.
Qed.

Lemma skipn_all_nil (A : Type) (l : list A) (i : nat) :
  ~ (i < length l)%nat -> skipn i l = [].
Proof. intros Hi. apply skipn_all2. lia. Qed.

(** ** The loops, chunk by chunk *)

Section Loops.
Context {H : Host}.

(** The loop of the current app pushes one point per chunk, in order. *)
Lemma Current_aggregateLoop_chunks (swaps : list Swap.t) (i : nat) (acc : list datum) :
  Current.aggregateLoop swaps i acc
  = acc ++ map Current.bucket (chunks 99 (skipn i swaps)).
Proof.
  funelim (Current.aggregateLoop swaps i acc).
  - rewrite H0. rewrite <- app_assoc. f_equal.
    rewrite (chunks_step 99 (@skipn_nonempty _ _ _ l)).
    cbn [map app]. rewrite slice_skipn, skipn_skipn.
    now rewrite (Nat.add_comm 100 i).
  - rewrite (@skipn_all_nil _ _ _ n), chunks_nil. cbn [map].
    now rewrite app_nil_r.
Qed.

Lemma Current_aggregateData_chunks (swaps : list Swap.t) :
  Current.aggregateData swaps = map Current.bucket (chunks 99 swaps).
Proof. unfold Current.aggregateData. now rewrite Current_aggregateLoop_chunks. Qed.

Lemma nth_error_last (A : Type) (l : list A) :
  l <> [] -> exists a, nth_error l (length l - 1) = Some a.
Proof.
  intros Hl. destruct (nth_error l (length l - 1)) as [a |] eqn:E; [now exists a |].
  apply nth_error_None in E. destruct l; [congruence | simpl in E; lia].
Qed.

Lemma Original_bucket_returns (chunk : list Swap.t) :
  chunk <> [] -> Original.bucket chunk = Returns (Original_point chunk).
Proof.
  intros Hc. unfold Original_point, Original.bucket, Original.timestampAt.
  destruct (nth_error_last Hc) as [z ->].
  destruct chunk as [| a chunk]; [congruence |]. reflexivity.
Qed.

Lemma Original_aggregateLoop_chunks (swaps : list Swap.t) (i : nat) (acc : list datum) :
  Original.aggregateLoop swaps i acc
  = Returns (acc ++ map Original_point (chunks 99 (skipn i swaps))).
Proof.
  funelim (Original.aggregateLoop swaps i acc).
  - assert (Hne : slice swaps0 i (i + 100) <> []).
    { intros E. apply (f_equal (@length Swap.t)) in E.
      rewrite slice_skipn, length_firstn, length_skipn in E.
      cbn [length] in E. lia. }
    rewrite (chunks_step 99 (@skipn_nonempty _ _ _ l)).
    cbn [map]. rewrite (Original_bucket_returns Hne) in *.
    rewrite slice_skipn in *.
    rewrite H0. rewrite <- app_assoc. do 2 f_equal.
    cbn [app]. rewrite skipn_skipn. now rewrite (Nat.add_comm 100 i).
  - rewrite (@skipn_all_nil _ _ _ n), chunks_nil. cbn [map].
    now rewrite app_nil_r.
Qed.

Lemma Original_aggregateData_chunks (swaps : list Swap.t) :
  Original.aggregateData swaps = Returns (map Original_point (chunks 99 swaps)).
Proof. unfold Original.aggregateData. now rewrite Original_aggregateLoop_chunks. Qed.
End Loops.

(** ** Sorting and objects *)

Section SortFacts.
Variable A : Type.
Variable compareFn : A -> A -> number.

Lemma insert_perm (a : A) (l : list A) : Permutation (insert compareFn a l) (a :: l).
Proof.
  induction l as [| b l IH]; cbn [insert]; [reflexivity |].
  destruct (positive (compareFn a b)); [| reflexivity].
  rewrite IH. apply perm_swap.
Qed.

Lemma Array_sort_perm (l : list A) : Permutation (Array_sort compareFn l) l.
Proof.
  induction l as [| a l IH]; cbn [Array_sort fold_right]; [reflexivity |].
  rewrite insert_perm. now apply perm_skip.
Qed.
End SortFacts.

Lemma filter_split_perm (A : Type) (f : A -> bool) (l : list A) :
  Permutation (filter f l ++ filter (fun a => negb (f a)) l) l.
Proof.
  induction l as [| a l IH]; [reflexivity |].
  cbn [filter]. destruct (f a); cbn [negb app].
  - now apply perm_skip.
  - rewrite <- Permutation_middle. now apply perm_skip.
Qed.

Lemma Object_entries_perm (V : Type) (o : object V) : Permutation (Object_entries o) o.
Proof.
  unfold Object_entries. rewrite Array_sort_perm.
  apply (filter_split_perm (fun e : key * V => isArrayIndex (fst e))).
Qed.

Lemma key_eqb_eq (a b : key) : key_eqb a b = true <-> a = b.
Proof.
  destruct a as [m |], b as [n |]; simpl; try (split; congruence).
  rewrite Z.eqb_eq. split; congruence.
Qed.

Section ObjectFacts.
Variable V : Type.
Implicit Types (o : object V) (k : key).

Lemma get_app_absent o k (v : V) :
  get o k = None -> get (o ++ [(k, v)]) k = Some v.
Proof.
  induction o as [| [k' v'] o IH]; cbn [get app].
  - intros _. now rewrite (proj2 (key_eqb_eq k k) eq_refl).
  - destruct (key_eqb k k'); [discriminate | exact IH].
Qed.

Lemma keys_modify (f : V -> V) k o : map fst (modify f k o) = map fst o.
Proof.
  induction o as [| [k' v'] o IH]; cbn [modify map]; [reflexivity |].
  destruct (key_eqb k k'); cbn [map fst]; now rewrite ?IH.
Qed.

Lemma get_modify (f : V -> V) k o : get (modify f k o) k = option_map f (get o k).
Proof.
  induction o as [| [k' v'] o IH]; cbn [modify get]; [reflexivity |].
  destruct (key_eqb k k') eqn:E; cbn [get]; rewrite E; [reflexivity | exact IH].
Qed.

(** Updating the entry of a key that is there changes a sum over the
    object by the change of that entry. *)
Lemma reduce_sum_modify (w : V -> number) (f : V -> V) (d : number) k o :
  get o k <> None ->
  (forall v, w (f v) = add (w v) d) ->
  reduce_sum (fun e => w (snd e)) (modify f k o)
  = add (reduce_sum (fun e => w (snd e)) o) d.
Proof.
  intros G Hf. induction o as [| [k' v'] o IH]; cbn [get modify] in *; [congruence |].
  destruct (key_eqb k k').
  - rewrite !reduce_sum_cons. cbn [snd]. rewrite Hf.
    rewrite <- !add_assoc. f_equal. apply add_comm.
  - rewrite !reduce_sum_cons, (IH G). apply add_assoc.
Qed.
End ObjectFacts.

Section TenMinuteTotals.
Context {H : Host}.

Lemma accumulate_total (acc : object TenMinute.bucket) (swap : Swap.t) :
  objectTotal (TenMinute.accumulate acc swap)
  = add (objectTotal acc) (parseFloat (Swap.amountUSD swap)).
Proof.
  unfold TenMinute.accumulate, objectTotal.
  set (k := TenMinute.timeKey swap).
  set (acc1 := match get acc k with None => _ | Some _ => acc end).
  assert (G : get acc1 k <> None /\
              reduce_sum (fun e => TenMinute.totalAmount (snd e)) acc1
              = reduce_sum (fun e => TenMinute.totalAmount (snd e)) acc).
  { subst acc1. destruct (get acc k) eqn:E.
    - split; congruence.
    - unfold set. rewrite E. split.
      + rewrite get_app_absent by assumption. discriminate.
      + rewrite reduce_sum_app, reduce_sum_cons, reduce_sum_nil.
        cbn [snd TenMinute.totalAmount]. now rewrite !add_0_r. }
  destruct G as [G T].
  rewrite (@reduce_sum_modify _ TenMinute.totalAmount _ (ofZ 0)).
  - rewrite add_0_r.
    rewrite (@reduce_sum_modify _ TenMinute.totalAmount _
               (parseFloat (Swap.amountUSD swap))); auto.
    now rewrite T.
  - rewrite get_modify. destruct (get acc1 k); [discriminate | congruence].
  - intros v. cbn. now rewrite add_0_r.
Qed.

Lemma aggregatedData_total_from (swaps : list Swap.t) (acc : object TenMinute.bucket) :
  objectTotal (fold_left TenMinute.accumulate swaps acc)
  = add (objectTotal acc) (rawTotal swaps).
Proof.
  revert acc. induction swaps as [| s swaps IH]; intros acc; cbn [fold_left].
  - unfold rawTotal. now rewrite reduce_sum_nil, add_0_r.
  - rewrite IH, accumulate_total. unfold rawTotal.
    rewrite reduce_sum_cons. now rewrite add_assoc.
Qed.

Lemma chartData_total (swaps : list Swap.t) :
  bucketTotal (TenMinute.chartData swaps) = rawTotal swaps.
Proof.
  unfold bucketTotal, TenMinute.chartData.
  rewrite (reduce_sum_perm _ (Array_sort_perm _ _)).
  rewrite reduce_sum_map. cbn [datum_y].
  rewrite (reduce_sum_perm _ (Object_entries_perm _)).
  fold (objectTotal (TenMinute.aggregatedData swaps)).
  unfold TenMinute.aggregatedData. rewrite aggregatedData_total_from.
  apply add_0_l.
Qed.

Lemma aggregateData_total (swaps : list Swap.t) :
  bucketTotal (Current.aggregateData swaps) = rawTotal swaps.
Proof.
  unfold bucketTotal, rawTotal.
  rewrite Current_aggregateData_chunks, reduce_sum_map. cbn [Current.bucket datum_y].
  rewrite <- reduce_sum_concat, concat_chunks. reflexivity.
Qed.
End TenMinuteTotals.

(** ** The claims *)

(** C3. For the empty swap list both aggregations produce the empty bucket
    sequence, the original variant's loop returns it without throwing, and
    a section whose query succeeded with no swaps (or with no data at all)
    returns, without throwing, a page whose one chart carries an empty
    data series. *)
Theorem empty_list_yields_no_buckets (H : Host) :
  Current.aggregateData [] = []
  /\ TenMinute.chartData [] = []
  /\ Original.aggregateData [] = Returns []
  /\ outcome_map dataSeries (Current.Swaps (succeeded (Some {| swaps := [] |}))) = Returns [[]]
  /\ outcome_map dataSeries (Current.Swaps (succeeded None)) = Returns [[]]
  /\ outcome_map dataSeries (TenMinute.Swaps (succeeded (Some {| swaps := [] |}))) = Returns [[]]
  /\ outcome_map dataSeries (TenMinute.Swaps (succeeded None)) = Returns [[]].
Proof. repeat split; reflexivity. Qed.

(** C8. The load-more update of the pagination variant returns exactly the
    prior list followed by the fetched page: the first [length P] elements
    are [P], unchanged and in order, the rest is [N]; the page counter
    advances by one.  [loadMore] asks for the page after the current one
    and merges it this way.  When nothing was fetched the prior data is
    kept. *)
Theorem load_more_appends (page : nat) (P N : list Swap.t) :
  let merged := Paginated.updateQuery page {| swaps := P |} (Some {| swaps := N |}) in
  fst merged = {| swaps := P ++ N |}
  /\ firstn (length P) (swaps (fst merged)) = P
  /\ skipn (length P) (swaps (fst merged)) = N
  /\ snd merged = (page + 1)%nat
  /\ Paginated.loadMore
       (fun skip => if (skip =? (page + 1) * 100)%nat then Some {| swaps := N |} else None)
       page {| swaps := P |}
     = ({| swaps := P ++ N |}, (page + 1)%nat)
  /\ Paginated.updateQuery page {| swaps := P |} None = ({| swaps := P |}, page).
Proof.
  cbn [Paginated.updateQuery fst snd swaps]. repeat split.
  - rewrite firstn_app, Nat.sub_diag, firstn_all. cbn. apply app_nil_r.
  - rewrite skipn_app, Nat.sub_diag, skipn_all. reflexivity.
  - unfold Paginated.loadMore, Paginated.pageSize.
    now rewrite Nat.eqb_refl.
Qed.

Lemma append_empty_r (s : string) : (s ++ "")%string = s.
Proof. induction s as [| c s IH]; [reflexivity | cbn; now rewrite IH]. Qed.

Lemma textContent_ErrorMessage (m : string) :
  textContent (ErrorMessage m) = ("Error: " ++ m)%string.
Proof. cbn. now rewrite append_empty_r. Qed.

(** C4. In every section of the app (and in the ten-minute [Swaps]), a
    query that failed with message [m] makes the section return, not
    throw, the error display: its text is ["Error: "] followed by [m], it
    holds no chart, and it is the same whatever data the query holds, so no
    aggregate reaches the page. *)
Theorem failed_query_renders_message (H : Host) (e : ApolloError) :
  (forall d, Current.Swaps (failed e d) = Returns (ErrorMessage (message e)))
  /\ (forall d, TenMinute.Swaps (failed e d) = Returns (ErrorMessage (message e)))
  /\ (forall d, TokenVolume (failed e d) = Returns (ErrorMessage (message e)))
  /\ (forall d, TopPairs (failed e d) = Returns (ErrorMessage (message e)))
  /\ (forall d, ProtocolStats (failed e d) = Returns (ErrorMessage (message e)))
  /\ textContent (ErrorMessage (message e)) = ("Error: " ++ message e)%string
  /\ contains (textContent (ErrorMessage (message e))) (message e)
  /\ charts (ErrorMessage (message e)) = [].
Proof.
  repeat split; try reflexivity.
  - apply textContent_ErrorMessage.
  - rewrite textContent_ErrorMessage. exists "Error: ", "".
    now rewrite append_empty_r.
Qed.

(** C7. A token list of length [k] below 5 is rendered as one bar chart
    with exactly the [k] symbols as labels and the [k] parsed volumes as
    values, in the list's order; a pool list likewise, labelled by its
    token pair.  (The bound is the query's; the mapping never pads.) *)
Theorem short_lists_render_unpadded
    (H : Host) (kt kp : nat) (ts : list Token.t) (ps : list Pool.t) :
  length ts = kt -> (kt < 5)%nat ->
  length ps = kp -> (kp < 5)%nat ->
  let tokenLabels := map Token.symbol ts in
  let tokenValues := map (fun token => Value (parseFloat (Token.volumeUSD token))) ts in
  let pairLabels :=
    map (fun pair => (symbol (Pool.token0 pair) ++ "/" ++ symbol (Pool.token1 pair))%string) ps in
  let pairValues := map (fun pair => Value (parseFloat (Pool.volumeUSD pair))) ps in
  outcome_map charts (TokenVolume (succeeded (Some {| tokens := ts |})))
  = Returns [{| labels := Some tokenLabels;
                datasets := [{| Dataset.label := "Volume USD"; Dataset.data := tokenValues |}] |}]
  /\ length tokenLabels = kt /\ length tokenValues = kt
  /\ outcome_map charts (TopPairs (succeeded (Some {| pools := ps |})))
     = Returns [{| labels := Some pairLabels;
                   datasets := [{| Dataset.label := "Volume USD"; Dataset.data := pairValues |}] |}]
  /\ length pairLabels = kp /\ length pairValues = kp.
Proof.
  intros Et _ Ep _. cbn zeta. rewrite !length_map.
  repeat split; trivial.
Qed.

Lemma short_lists_render_unpadded_witness :
  let ts := [{| Token.id := "0xa"; Token.symbol := "WETH"; Token.volumeUSD := "1500.5" |};
             {| Token.id := "0xb"; Token.symbol := "USDC"; Token.volumeUSD := "900" |}] in
  let ps := [{| Pool.id := "0xc"; Pool.token0 := {| symbol := "WETH" |};
                Pool.token1 := {| symbol := "USDC" |}; Pool.volumeUSD := "42" |}] in
  (length ts = 2%nat /\ (2 < 5)%nat /\ length ps = 1%nat /\ (1 < 5)%nat)
  /\ outcome_map charts (@TokenVolume ExampleHost.utc (succeeded (Some {| tokens := ts |})))
     = Returns
         [{| labels := Some ["WETH"; "USDC"];
             datasets :=
               [{| Dataset.label := "Volume USD";
                   Dataset.data :=
                     [Value (ExampleHost.parseFloat "1500.5");
                      Value (ExampleHost.parseFloat "900")] |}] |}]
  /\ outcome_map charts (@TopPairs ExampleHost.utc (succeeded (Some {| pools := ps |})))
     = Returns
         [{| labels := Some ["WETH/USDC"];
             datasets :=
               [{| Dataset.label := "Volume USD";
                   Dataset.data := [Value (ExampleHost.parseFloat "42")] |}] |}].
Proof.
  intros ts ps.
  assert (Ht : length ts = 2%nat) by reflexivity.
  assert (Hp : length ps = 1%nat) by reflexivity.
  assert (B2 : (2 < 5)%nat) by lia.
  assert (B1 : (1 < 5)%nat) by lia.
  destruct (@short_lists_render_unpadded ExampleHost.utc 2 1 ts ps Ht B2 Hp B1)
    as (Et & _ & _ & Ep & _).
  split; [now repeat split |].
  split; [exact Et | exact Ep].
Defined.

(** ** The key of a ten-minute bucket *)

(** Rounding a local time down to its ten-minute mark, as [setMinutes]
    composes it from day, hour and rounded minutes. *)
Lemma ten_minute_floor (t : Z) :
  MakeDate (Day t) (MakeTime (HourFromTime t) (MinFromTime t / 10 * 10) 0 0)
  = 600000 * (t / 600000).
Proof.
  unfold MakeDate, MakeTime, Day, HourFromTime, MinFromTime,
    msPerDay, msPerHour, msPerMinute, msPerSecond.
  change 86400000 with (60000 * 1440).
  change 3600000 with (60000 * 60).
  change 600000 with (60000 * 10).
  rewrite <- !Z.div_div by lia.
  set (a := t / 60000).
  Z.div_mod_to_equations. lia.
Qed.

Section TimeKey.
Context {H : Host}.

Lemma timeKey_parsed (swap : Swap.t) (t : Z) :
  parseInt (Swap.timestamp swap) = Some t -> TenMinute.timeKey swap = keyOf t.
Proof.
  intros E. unfold TenMinute.timeKey, keyOf. rewrite E. cbn [numOf].
  unfold fromUnixTime. rewrite ofZ_mul, new_Date_ofZ.
  destruct (TimeClip (t * 1000)) as [ms |]; [| reflexivity].
  cbn [getMinutes]. rewrite Math_floor_div_ofZ by lia. rewrite ofZ_mul.
  unfold setMinutes. rewrite !truncate_ofZ. cbv zeta.
  rewrite ten_minute_floor, new_Date_TimeClip.
  unfold getTime. apply truncate_numOf.
Qed.

Lemma timeKey_unparsed (swap : Swap.t) :
  parseInt (Swap.timestamp swap) = None -> TenMinute.timeKey swap = None.
Proof. intros E. unfold TenMinute.timeKey. rewrite E. reflexivity. Qed.

(** A key is a time value that [Date] can hold, or none. *)
Lemma timeKey_clipped (swap : Swap.t) :
  new_Date (numOf (TenMinute.timeKey swap)) = TenMinute.timeKey swap.
Proof.
  destruct (parseInt (Swap.timestamp swap)) as [t |] eqn:E.
  - rewrite (timeKey_parsed _ E). unfold keyOf.
    destruct (TimeClip (t * 1000)); [apply new_Date_TimeClip | reflexivity].
  - now rewrite (timeKey_unparsed _ E).
Qed.

(** A valid key comes from a timestamp that parses to a valid time. *)
Lemma timeKey_valid (swap : Swap.t) (k : Z) :
  TenMinute.timeKey swap = Some k ->
  exists t, parseInt (Swap.timestamp swap) = Some t
            /\ TimeClip (t * 1000) = Some (t * 1000)
            /\ TimeClip (UTC (600000 * (LocalTime (t * 1000) / 600000))) = Some k.
Proof.
  intros K. destruct (parseInt (Swap.timestamp swap)) as [t |] eqn:E.
  - exists t. split; [reflexivity |].
    rewrite (timeKey_parsed _ E) in K. unfold keyOf in K.
    destruct (TimeClip (t * 1000)) as [ms |] eqn:C; [| discriminate].
    destruct (TimeClip_Some _ C) as [-> _]. now split.
  - rewrite (timeKey_unparsed _ E) in K. discriminate.
Qed.

(** Where the zone is steady at [z], the key is the local ten-minute mark
    taken back by [z]. *)
Lemma local_mark_steady (z t : Z) :
  zoneSteady z t ->
  UTC (600000 * (LocalTime (t * 1000) / 600000))
  = 600000 * ((1000 * t + z) / 600000) - z.
Proof.
  intros [A B]. unfold UTC, LocalTime. rewrite (Z.mul_comm t 1000), A, B. reflexivity.
Qed.

(** Where local time is a whole number of ten-minute steps from UTC, and
    stays so around the swap, the key is the unix time rounded down to 600
    seconds, in milliseconds. *)
Lemma timeKey_aligned (z : Z) (swap : Swap.t) (t : Z) :
  z mod 600000 = 0 ->
  zoneSteady z t ->
  inDateRange t ->
  parseInt (Swap.timestamp swap) = Some t ->
  TenMinute.timeKey swap = Some (1000 * (600 * (t / 600))).
Proof.
  intros Hz St R E. rewrite (timeKey_parsed _ E). unfold keyOf.
  rewrite (TimeClip_seconds R), (local_mark_steady St).
  apply Z.mod_divide in Hz; [| lia]. destruct Hz as [k ->].
  rewrite Z.div_add by lia.
  replace (1000 * t / 600000) with (t / 600).
  - replace (600000 * (t / 600 + k) - k * 600000) with (1000 * (600 * (t / 600))) by lia.
    apply TimeClip_inRange. unfold inDateRange, maxTime in *.
    Z.div_mod_to_equations. lia.
  - change 600000 with (1000 * 600).
    now rewrite Z.div_mul_cancel_l by lia.
Qed.
End TimeKey.

(** C5, as stated, fails on two counts, because the key is rounded on the
    local clock.  On a host whose local time is not a whole number of
    ten-minute steps from UTC (here UTC+12:45, the clock of Pacific/Chatham
    at the epoch) the swaps at timestamps 0 and 300 get different keys,
    neither of them 0, and the chart shows two buckets.  And where the
    clocks are set back, a key is not the timestamp rounded down to 600
    seconds even though the offsets are whole hours: in America/New_York
    the swap at 1730615700 (01:35 EST on 3 November 2024) gets the key
    1730611800000, the first 01:30 of that night, an hour before the
    rounded timestamp 1730615400000. *)
Lemma ten_minute_key_follows_the_local_clock :
  let s0 := exampleSwap "10" "0" in
  let s300 := exampleSwap "20" "300" in
  let s := exampleSwap "10" "1730615700" in
  (@parseInt ExampleHost.plus1245 (Swap.timestamp s0) = Some 0
   /\ @parseInt ExampleHost.plus1245 (Swap.timestamp s300) = Some 300
   /\ @TenMinute.timeKey ExampleHost.plus1245 s0 = Some (-300000)
   /\ @TenMinute.timeKey ExampleHost.plus1245 s300 = Some 300000
   /\ map datum_x (@TenMinute.chartData ExampleHost.plus1245 [s0; s300])
      = [Some (-300000); Some 300000]
   /\ ~ (@TenMinute.timeKey ExampleHost.plus1245 s0 = Some 0
         /\ @TenMinute.timeKey ExampleHost.plus1245 s300 = Some 0))
  /\ (@parseInt ExampleHost.newYork (Swap.timestamp s) = Some 1730615700
      /\ @TenMinute.timeKey ExampleHost.newYork s = Some 1730611800000
      /\ 1000 * (600 * (1730615700 / 600)) = 1730615400000
      /\ @TenMinute.timeKey ExampleHost.newYork s
         <> Some (1000 * (600 * (1730615700 / 600)))).
Proof.
  cbv zeta. repeat split; try (vm_compute; reflexivity).
  - intros [E _]. vm_compute in E. discriminate.
  - intros E. vm_compute in E. discriminate.
Qed.

(** C5, amended. On a host whose local time is a whole number of
    ten-minute steps [z] from UTC, and stays at [z] around the swap (at its
    instant and at the start of its local ten-minute interval), a swap at
    a unix time [t] that [Date] can hold gets the key
    [1000 * (600 * (t / 600))]: its timestamp rounded down to the
    600-second interval, in milliseconds.  Two swaps at timestamps 0 and
    300 then share the key 0, and the chart has the single bucket at 0
    whose total is the sum of the two amounts and whose count is 2. *)
Theorem ten_minute_key_rounds_down (H : Host) (z : Z) (s1 s2 : Swap.t) :
  z mod 600000 = 0 ->
  zoneSteady z 0 ->
  zoneSteady z 300 ->
  parseInt (Swap.timestamp s1) = Some 0 ->
  parseInt (Swap.timestamp s2) = Some 300 ->
  TenMinute.timeKey s1 = Some 0
  /\ TenMinute.timeKey s2 = Some 0
  /\ TenMinute.chartData [s1; s2]
     = [XYCount (Some 0)
          (add (parseFloat (Swap.amountUSD s1)) (parseFloat (Swap.amountUSD s2))) 2]
  /\ TenMinute.chartData [s2; s1]
     = [XYCount (Some 0)
          (add (parseFloat (Swap.amountUSD s2)) (parseFloat (Swap.amountUSD s1))) 2]
  /\ (forall (s : Swap.t) (t : Z),
        parseInt (Swap.timestamp s) = Some t ->
        inDateRange t ->
        zoneSteady z t ->
        TenMinute.timeKey s = Some (1000 * (600 * (t / 600)))).
Proof.
  intros Hz St1 St2 E1 E2.
  assert (R1 : inDateRange 0) by (unfold inDateRange; lia).
  assert (R2 : inDateRange 300) by (unfold inDateRange; lia).
  pose proof (timeKey_aligned s1 Hz St1 R1 E1) as K1.
  pose proof (timeKey_aligned s2 Hz St2 R2 E2) as K2.
  change (1000 * (600 * (0 / 600))) with 0 in K1.
  change (1000 * (600 * (300 / 600))) with 0 in K2.
  repeat split; trivial.
  - unfold TenMinute.chartData, TenMinute.aggregatedData.
    cbn [fold_left]. unfold TenMinute.accumulate. rewrite K1, K2.
    cbn -[add ofZ]. now rewrite add_0_l.
  - unfold TenMinute.chartData, TenMinute.aggregatedData.
    cbn [fold_left]. unfold TenMinute.accumulate. rewrite K1, K2.
    cbn -[add ofZ]. now rewrite add_0_l.
  - intros s t E R St. now apply (timeKey_aligned s Hz St R E).
Qed.

Lemma ten_minute_key_rounds_down_witness :
  let s1 := exampleSwap "10" "0" in
  let s2 := exampleSwap "20" "300" in
  (- (5 * msPerHour) mod 600000 = 0
   /\ @zoneSteady ExampleHost.minus0500 (- (5 * msPerHour)) 0
   /\ @zoneSteady ExampleHost.minus0500 (- (5 * msPerHour)) 300
   /\ @parseInt ExampleHost.minus0500 (Swap.timestamp s1) = Some 0
   /\ @parseInt ExampleHost.minus0500 (Swap.timestamp s2) = Some 300)
  /\ @TenMinute.timeKey ExampleHost.minus0500 s1 = Some 0
  /\ @TenMinute.timeKey ExampleHost.minus0500 s2 = Some 0.
Proof.
  intros s1 s2.
  assert (Hz : - (5 * msPerHour) mod 600000 = 0) by reflexivity.
  assert (St1 : @zoneSteady ExampleHost.minus0500 (- (5 * msPerHour)) 0) by (now split).
  assert (St2 : @zoneSteady ExampleHost.minus0500 (- (5 * msPerHour)) 300) by (now split).
  assert (E1 : @parseInt ExampleHost.minus0500 (Swap.timestamp s1) = Some 0) by reflexivity.
  assert (E2 : @parseInt ExampleHost.minus0500 (Swap.timestamp s2) = Some 300) by reflexivity.
  destruct (@ten_minute_key_rounds_down ExampleHost.minus0500 _ s1 s2 Hz St1 St2 E1 E2)
    as (K1 & K2 & _).
  repeat split; assumption.
Defined.

(** ** What the buckets depend on *)

Section Dependence.
Variables H1 H2 : Host.
Local Abbreviation readAlike := (readAlike H1 H2).

Lemma reduce_sum_Forall2 (A : Type) (R : A -> A -> Prop) (f g : A -> number) (l1 l2 : list A) :
  (forall a b, R a b -> f a = g b) ->
  Forall2 R l1 l2 -> reduce_sum f l1 = reduce_sum g l2.
Proof.
  intros Hfg. induction 1 as [| a b l1 l2 Hab _ IH]; [reflexivity |].
  rewrite !reduce_sum_cons, IH, (Hfg a b Hab). reflexivity.
Qed.

Lemma Current_bucket_alike (c1 c2 : list Swap.t) :
  Forall2 readAlike c1 c2 -> @Current.bucket H1 c1 = @Current.bucket H2 c2.
Proof.
  intros F. unfold Current.bucket.
  rewrite (Forall2_length F).
  rewrite (@reduce_sum_Forall2 _ readAlike
             (fun swap => @parseFloat H1 (Swap.amountUSD swap))
             (fun swap => @parseFloat H2 (Swap.amountUSD swap)) c1 c2); trivial.
  - rewrite (@reduce_sum_Forall2 _ readAlike
             (fun swap => numOf (@parseInt H1 (Swap.timestamp swap)))
             (fun swap => numOf (@parseInt H2 (Swap.timestamp swap))) c1 c2); trivial.
    intros a b [_ E]. now rewrite E.
  - now intros a b [E _].
Qed.

Lemma Forall2_firstn (A B : Type) (R : A -> B -> Prop) (n : nat) (l1 : list A) (l2 : list B) :
  Forall2 R l1 l2 -> Forall2 R (firstn n l1) (firstn n l2).
Proof.
  intros F. revert n. induction F; intros [| n]; cbn [firstn]; auto.
Qed.

Lemma Forall2_skipn (A B : Type) (R : A -> B -> Prop) (n : nat) (l1 : list A) (l2 : list B) :
  Forall2 R l1 l2 -> Forall2 R (skipn n l1) (skipn n l2).
Proof.
  intros F. revert n. induction F; intros [| n]; cbn [skipn]; auto.
Qed.

Lemma chunks_alike (A B : Type) (R : A -> B -> Prop) (n : nat) (l1 : list A) (l2 : list B) :
  Forall2 R l1 l2 -> Forall2 (Forall2 R) (chunks n l1) (chunks n l2).
Proof.
  revert l2. funelim (chunks n l1); intros l2 F.
  - inversion F. simp chunks. constructor.
  - rewrite (@chunks_step _ n l2) by (inversion F; congruence).
    constructor.
    + now apply Forall2_firstn.
    + apply H. now apply Forall2_skipn.
Qed.

Lemma Current_aggregateData_alike (l1 l2 : list Swap.t) :
  Forall2 readAlike l1 l2 ->
  @Current.aggregateData H1 l1 = @Current.aggregateData H2 l2.
Proof.
  intros F. rewrite !Current_aggregateData_chunks.
  induction (chunks_alike 99 F) as [| c1 c2 cs1 cs2 Fc _ IH]; [reflexivity |].
  cbn [map]. now rewrite IH, (Current_bucket_alike Fc).
Qed.

Hypothesis sameZone : forall t isUTC, @LocalTZA H1 t isUTC = @LocalTZA H2 t isUTC.

Lemma timeKey_alike (s1 s2 : Swap.t) :
  readAlike s1 s2 -> @TenMinute.timeKey H1 s1 = @TenMinute.timeKey H2 s2.
Proof.
  intros [_ E].
  case_eq (@parseInt H2 (Swap.timestamp s2)); [intros t P | intros P]; rewrite P in E.
  - rewrite (@timeKey_parsed H1 _ _ E), (@timeKey_parsed H2 _ _ P).
    unfold keyOf, UTC, LocalTime.
    destruct (TimeClip (t * 1000)); [| reflexivity]. now rewrite !sameZone.
  - now rewrite (@timeKey_unparsed H1 _ E), (@timeKey_unparsed H2 _ P).
Qed.

Lemma accumulate_alike (acc : object TenMinute.bucket) (s1 s2 : Swap.t) :
  readAlike s1 s2 ->
  @TenMinute.accumulate H1 acc s1 = @TenMinute.accumulate H2 acc s2.
Proof.
  intros R. unfold TenMinute.accumulate.
  rewrite (timeKey_alike R). destruct R as [-> _]. reflexivity.
Qed.

Lemma chartData_alike (l1 l2 : list Swap.t) :
  Forall2 readAlike l1 l2 ->
  @TenMinute.chartData H1 l1 = @TenMinute.chartData H2 l2.
Proof.
  intros F. unfold TenMinute.chartData, TenMinute.aggregatedData.
  do 3 f_equal. generalize (@nil (key * TenMinute.bucket)).
  induction F as [| s1 s2 l1 l2 R _ IH]; intros acc; [reflexivity |].
  cbn [fold_left]. rewrite (accumulate_alike acc R). apply IH.
Qed.
End Dependence.

Lemma same_fields_readAlike (H1 H2 : Host) (l1 l2 : list Swap.t) :
  (forall s, @parseFloat H1 s = @parseFloat H2 s) ->
  (forall s, @parseInt H1 s = @parseInt H2 s) ->
  map (fun s => (Swap.amountUSD s, Swap.timestamp s)) l1
  = map (fun s => (Swap.amountUSD s, Swap.timestamp s)) l2 ->
  Forall2 (readAlike H1 H2) l1 l2.
Proof.
  intros Pf Pi. revert l2. induction l1 as [| a l1 IH]; intros [| b l2] E;
    try discriminate; constructor.
  - injection E as Ea Et _. split; [rewrite Ea; apply Pf | rewrite Et; apply Pi].
  - apply IH. now injection E.
Qed.

(** C10, as stated, fails for the ten-minute buckets: they depend on state
    outside the swap list, the time zone rules of the host.  The same two
    swaps give one bucket at 0 under UTC and two buckets, at -300000 and
    300000, at UTC+12:45 (Pacific/Chatham at the epoch).  Sharing the
    offset at the instant of the swap is not enough: at 1730615700 both
    America/New_York and UTC-05:00 are five hours behind UTC, and the swap
    gets the key 1730611800000 in the first and 1730615400000 in the
    second. *)
Lemma ten_minute_buckets_depend_on_time_zone :
  let l := [exampleSwap "10" "300"; exampleSwap "20" "0"] in
  let s := exampleSwap "10" "1730615700" in
  (map datum_x (@TenMinute.chartData ExampleHost.utc l) = [Some 0]
   /\ map datum_x (@TenMinute.chartData ExampleHost.plus1245 l)
      = [Some (-300000); Some 300000]
   /\ @TenMinute.chartData ExampleHost.utc l
      <> @TenMinute.chartData ExampleHost.plus1245 l)
  /\ (@LocalTZA ExampleHost.newYork (1000 * 1730615700) true
      = @LocalTZA ExampleHost.minus0500 (1000 * 1730615700) true
      /\ map datum_x (@TenMinute.chartData ExampleHost.newYork [s])
         = [Some 1730611800000]
      /\ map datum_x (@TenMinute.chartData ExampleHost.minus0500 [s])
         = [Some 1730615400000]).
Proof.
  cbv zeta. repeat split; try (vm_compute; reflexivity).
  intros E. apply (f_equal (@length datum)) in E. vm_compute in E. discriminate.
Qed.

(** C10, amended. Both aggregations are functions of their input: two
    swap lists that agree, position by position, on [amountUSD] and
    [timestamp] give identical bucket sequences, whatever their ids and
    token symbols.  The chunks of 100 depend on nothing else (two hosts
    with the same [parseFloat] and [parseInt] give the same buckets); the
    ten-minute buckets depend, besides, on the host's time zone rules, and
    are identical on hosts whose rules give the same offset at every
    instant and at every local time. *)
Theorem buckets_depend_on_amount_timestamp_and_zone
    (H1 H2 : Host) (l1 l2 : list Swap.t) :
  (forall s, @parseFloat H1 s = @parseFloat H2 s) ->
  (forall s, @parseInt H1 s = @parseInt H2 s) ->
  map (fun s => (Swap.amountUSD s, Swap.timestamp s)) l1
  = map (fun s => (Swap.amountUSD s, Swap.timestamp s)) l2 ->
  @Current.aggregateData H1 l1 = @Current.aggregateData H2 l2
  /\ ((forall t isUTC, @LocalTZA H1 t isUTC = @LocalTZA H2 t isUTC) ->
      @TenMinute.chartData H1 l1 = @TenMinute.chartData H2 l2).
Proof.
  intros Pf Pi E. pose proof (same_fields_readAlike H1 H2 l1 l2 Pf Pi E) as F.
  split.
  - now apply Current_aggregateData_alike.
  - intros Z. now apply chartData_alike.
Qed.

Lemma buckets_depend_on_amount_timestamp_and_zone_witness :
  let l1 := [exampleSwap "10" "300"; exampleSwap "20" "0"] in
  let l2 :=
    [{| Swap.id := "0x2"; Swap.amountUSD := "10"; Swap.timestamp := "300";
        Swap.token0 := {| symbol := "DAI" |}; Swap.token1 := {| symbol := "WBTC" |} |};
     {| Swap.id := "0x3"; Swap.amountUSD := "20"; Swap.timestamp := "0";
        Swap.token0 := {| symbol := "UNI" |}; Swap.token1 := {| symbol := "USDT" |} |}] in
  map (fun s => (Swap.amountUSD s, Swap.timestamp s)) l1
  = map (fun s => (Swap.amountUSD s, Swap.timestamp s)) l2
  /\ @Current.aggregateData ExampleHost.utc l1
     = @Current.aggregateData ExampleHost.plus1245 l2
  /\ @TenMinute.chartData ExampleHost.newYork l1
     = @TenMinute.chartData ExampleHost.newYork l2.
Proof.
  intros l1 l2.
  assert (E : map (fun s => (Swap.amountUSD s, Swap.timestamp s)) l1
              = map (fun s => (Swap.amountUSD s, Swap.timestamp s)) l2) by reflexivity.
  split; [exact E |]. split.
  - exact (proj1 (@buckets_depend_on_amount_timestamp_and_zone
                    ExampleHost.utc ExampleHost.plus1245 l1 l2
                    (fun s => eq_refl) (fun s => eq_refl) E)).
  - exact (proj2 (@buckets_depend_on_amount_timestamp_and_zone
                    ExampleHost.newYork ExampleHost.newYork l1 l2
                    (fun s => eq_refl) (fun s => eq_refl) E) (fun t isUTC => eq_refl)).
Defined.

(** ** The shape of the chunks *)

Lemma slice_length (A : Type) (l : list A) (i : nat) :
  (i < length l)%nat -> (1 <= length (slice l i (i + 100)) <= 100)%nat.
Proof.
  intros Hi. rewrite slice_skipn, length_firstn, length_skipn. lia.
Qed.

Lemma ofNat_nonzero (n : nat) : (1 <= n)%nat -> ofNat n <> ofZ 0.
Proof. intros Hn E. apply ofZ_inj in E. lia. Qed.

Lemma chunks_full (A : Type) (n : nat) (c l : list A) :
  length c = S n -> chunks n (c ++ l) = c :: chunks n l.
Proof.
  intros Hc. rewrite chunks_step by (destruct c; [discriminate | cbn; congruence]).
  rewrite firstn_app, skipn_app, Hc, Nat.sub_diag.
  rewrite firstn_all2, skipn_all2 by lia.
  cbn [firstn skipn app]. now rewrite app_nil_r.
Qed.

Lemma chunks_short (A : Type) (n : nat) (l : list A) :
  l <> [] -> (length l <= S n)%nat -> chunks n l = [l].
Proof.
  intros Hl Hn. rewrite (@chunks_step _ n _ Hl).
  rewrite firstn_all2, skipn_all2 by lia. now rewrite chunks_nil.
Qed.

(** A list of [k] full chunks followed by [rest]. *)
Lemma chunks_app (A : Type) (n k : nat) (l rest : list A) :
  length l = (k * S n)%nat ->
  chunks n (l ++ rest) = chunks n l ++ chunks n rest
  /\ length (chunks n l) = k
  /\ Forall (fun c => length c = S n) (chunks n l).
Proof.
  revert l. induction k as [| k IH]; intros l Hl.
  - destruct l; [| discriminate]. rewrite chunks_nil. now repeat split.
  - rewrite <- (firstn_skipn (S n) l).
    assert (Hf : length (firstn (S n) l) = S n) by (rewrite length_firstn; lia).
    assert (Hs : length (skipn (S n) l) = (k * S n)%nat) by (rewrite length_skipn; lia).
    destruct (IH (skipn (S n) l) Hs) as (E & L & F).
    rewrite <- app_assoc, !(@chunks_full _ _ _ _ Hf), E. cbn [app length].
    rewrite L. repeat split. now constructor.
Qed.

(** When the length is not a multiple of 100, the chunks are the full
    ones followed by the remainder. *)
Lemma chunks_remainder (A : Type) (l : list A) :
  (length l mod 100 <> 0)%nat ->
  let r := (length l mod 100)%nat in
  chunks 99 l = chunks 99 (firstn (length l - r) l) ++ [skipn (length l - r) l]
  /\ length (chunks 99 (firstn (length l - r) l)) = (length l / 100)%nat
  /\ Forall (fun c => length c = 100%nat) (chunks 99 (firstn (length l - r) l))
  /\ length (skipn (length l - r) l) = r.
Proof.
  intros Hr r.
  pose proof (Nat.div_mod_eq (length l) 100) as D.
  pose proof (Nat.mod_upper_bound (length l) 100 ltac:(lia)) as B.
  change (length l mod 100)%nat with r in D, B, Hr.
  set (q := (length l / 100)%nat) in *. clearbody r q.
  assert (Hf : length (firstn (length l - r) l) = (q * 100)%nat)
    by (rewrite length_firstn; lia).
  assert (Hs : length (skipn (length l - r) l) = r) by (rewrite length_skipn; lia).
  destruct (@chunks_app _ 99 q (firstn (length l - r) l)
              (skipn (length l - r) l) Hf) as (E & L & F).
  rewrite firstn_skipn in E. rewrite E, L.
  rewrite (@chunks_short _ 99 (skipn (length l - r) l)).
  - auto.
  - intros N. rewrite N in Hs. cbn in Hs. lia.
  - lia.
Qed.

(** C9. For a non-empty swap list and any index [i] the loop can reach
    ([i < length]), the chunk [slice(i, i + 100)] has between 1 and 100
    elements: the divisor of the average is not zero, the first and last
    elements are there to read, and the original variant's loop body, and
    so its whole loop, returns without throwing. *)
Theorem chunk_is_never_empty (H : Host) (l : list Swap.t) (i : nat) :
  l <> [] ->
  (i < length l)%nat ->
  let chunk := slice l i (i + 100) in
  (1 <= length chunk <= 100)%nat
  /\ ofNat (length chunk) <> ofZ 0
  /\ (exists first last,
        nth_error chunk 0 = Some first
        /\ nth_error chunk (length chunk - 1) = Some last)
  /\ (exists point, Original.bucket chunk = Returns point)
  /\ (exists points, Original.aggregateData l = Returns points)
  /\ Forall (fun c => (1 <= length c <= 100)%nat) (chunks 99 l)
  /\ Current.aggregateData l = map Current.bucket (chunks 99 l).
Proof.
  intros _ Hi chunk.
  pose proof (slice_length l Hi) as B. fold chunk in B.
  assert (Hne : chunk <> []) by (intros N; rewrite N in B; cbn in B; lia).
  repeat split; try lia.
  - apply ofNat_nonzero. lia.
  - destruct (nth_error_last Hne) as [z Hz].
    destruct chunk as [| a c]; [congruence |]. now exists a, z.
  - eexists. now apply Original_bucket_returns.
  - eexists. apply Original_aggregateData_chunks.
  - apply chunks_bounds.
  - apply Current_aggregateData_chunks.
Qed.

Lemma chunk_is_never_empty_witness :
  let l := [exampleSwap "10" "1000"; exampleSwap "20" "1001"] in
  (l <> [] /\ (0 < length l)%nat)
  /\ (1 <= length (slice l 0 (0 + 100)) <= 100)%nat.
Proof.
  intros l.
  assert (Hl : l <> []) by discriminate.
  assert (Hi : (0 < length l)%nat) by (cbn; lia).
  split; [now split |].
  exact (proj1 (@chunk_is_never_empty ExampleHost.utc l 0 Hl Hi)).
Defined.

(** C6. When the list length is not a multiple of 100, the last point the
    loop pushes is the one of the remainder chunk, the final
    [length mod 100] swaps, computed by the same loop body as every full
    chunk: its total is the sum of the chunk's amounts and its time is the
    average of the chunk's timestamps over the chunk's own length.  The
    full chunks before it number [length / 100].  The original variant
    gives the remainder the same total. *)
Theorem remainder_chunk_same_formula (H : Host) (l : list Swap.t) :
  (length l mod 100 <> 0)%nat ->
  let r := (length l mod 100)%nat in
  let chunk := skipn (length l - r) l in
  length chunk = r
  /\ chunk = slice l (length l - r) (length l - r + 100)
  /\ (exists full,
        Current.aggregateData l
        = map Current.bucket full
          ++ [XY (new_Date
                    (mul (div (reduce_sum (fun swap => numOf (parseInt (Swap.timestamp swap))) chunk)
                              (ofNat r))
                         (ofZ 1000)))
                 (reduce_sum (fun swap => parseFloat (Swap.amountUSD swap)) chunk)]
        /\ Forall (fun c => length c = 100%nat) full
        /\ length full = (length l / 100)%nat)
  /\ (exists points point,
        Original.aggregateData l = Returns (points ++ [point])
        /\ datum_y point = reduce_sum (fun swap => parseFloat (Swap.amountUSD swap)) chunk
        /\ length points = (length l / 100)%nat).
Proof.
  intros Hr r chunk.
  destruct (chunks_remainder l Hr) as (E & L & F & R).
  fold r in E, L, F, R. fold chunk in E, R.
  assert (Hne : chunk <> [])
    by (intros N; rewrite N in R; cbn [length] in R; unfold r in R; lia).
  split; [exact R |]. split.
  { rewrite slice_skipn. symmetry. apply firstn_all2. fold chunk. rewrite R.
    pose proof (Nat.mod_upper_bound (length l) 100 ltac:(lia)). unfold r. lia. }
  split.
  - exists (chunks 99 (firstn (length l - r) l)).
    rewrite Current_aggregateData_chunks, E, map_app. cbn [map].
    unfold Current.bucket at 2. rewrite R. auto.
  - exists (map Original_point (chunks 99 (firstn (length l - r) l))),
           (Original_point chunk).
    rewrite Original_aggregateData_chunks, E, map_app, length_map.
    repeat split; trivial.
    pose proof (Original_bucket_returns Hne) as B.
    unfold Original.bucket, Original.timestampAt in B.
    destruct (nth_error chunk 0); [| discriminate].
    destruct (nth_error chunk (length chunk - 1)); [| discriminate].
    cbn in B. injection B as <-. reflexivity.
Qed.

Lemma remainder_chunk_same_formula_witness :
  let l := [exampleSwap "10" "1000"; exampleSwap "20" "1001"; exampleSwap "12.5" "1003"] in
  (length l mod 100 <> 0)%nat
  /\ length (skipn (length l - length l mod 100) l) = (length l mod 100)%nat.
Proof.
  intros l.
  assert (Hr : (length l mod 100 <> 0)%nat) by (cbn; lia).
  split; [exact Hr |].
  exact (proj1 (@remainder_chunk_same_formula ExampleHost.utc l Hr)).
Defined.

(** ** Order of the buckets *)

Section SortByDate.
Variable A : Type.
Variable when : A -> Date.

Local Abbreviation byDate := (fun a b : A => sub (getTime (when a)) (getTime (when b))).
Local Abbreviation earlier := (fun a b : A => timeLe (when a) (when b)).

Lemma difference_positive (s t : Z) :
  positive (sub (getTime (Some s)) (getTime (Some t))) = (t <? s).
Proof.
  unfold getTime. cbn [numOf]. rewrite ofZ_sub, positive_ofZ.
  destruct (Z.ltb_spec 0 (s - t)); destruct (Z.ltb_spec t s); trivial; lia.
Qed.

Lemma insert_In (a b : A) (l : list A) :
  In b (insert byDate a l) -> b = a \/ In b l.
Proof.
  intros I. apply (Permutation_in _ (insert_perm byDate a l)) in I.
  destruct I; auto.
Qed.

Lemma insert_sorted (a : A) (l : list A) :
  when a <> None ->
  Forall (fun b => when b <> None) l ->
  StronglySorted earlier l ->
  StronglySorted earlier (insert byDate a l).
Proof.
  intros Va Vl S. induction S as [| b l S IH F]; cbn [insert].
  - repeat constructor.
  - inversion Vl as [| ? ? Vb Vl']; subst. specialize (IH Vl').
    rewrite Forall_forall in F, Vl'.
    destruct (when a) as [s |] eqn:Ea; [| congruence].
    destruct (when b) as [t |] eqn:Eb; [| congruence].
    cbv beta. rewrite difference_positive.
    destruct (Z.ltb_spec t s) as [Lt | Ge].
    + constructor; [exact IH |].
      apply Forall_forall. intros c Ic. cbv beta. rewrite Eb.
      destruct (@insert_In _ _ _ Ic) as [-> | Ic'].
      * rewrite Ea. cbn [timeLe]. lia.
      * now apply F.
    + constructor.
      { constructor; [exact S |]. apply Forall_forall. intros c Ic.
        cbv beta. rewrite Eb. now apply F. }
      constructor; cbv beta; rewrite Ea.
      * rewrite Eb. exact Ge.
      * apply Forall_forall. intros c Ic.
        specialize (F c Ic). specialize (Vl' c Ic).
        destruct (when c); cbn [timeLe] in *; [lia | congruence].
Qed.

(** Sorting valid dates by their difference puts them in ascending
    order. *)
Lemma Array_sort_sorted (l : list A) :
  Forall (fun b => when b <> None) l ->
  StronglySorted earlier (Array_sort byDate l).
Proof.
  induction 1 as [| a l Va Vl IH]; cbn [Array_sort fold_right].
  - constructor.
  - apply insert_sorted; trivial.
    apply Forall_forall. intros b Ib.
    apply (Permutation_in _ (Array_sort_perm byDate l)) in Ib.
    rewrite Forall_forall in Vl. now apply Vl.
Qed.
End SortByDate.

Lemma StronglySorted_map (A B : Type) (R : B -> B -> Prop) (f : A -> B) (l : list A) :
  StronglySorted (fun a b => R (f a) (f b)) l -> StronglySorted R (map f l).
Proof.
  induction 1 as [| a l _ IH F]; cbn [map]; constructor; trivial.
  apply Forall_forall. intros b Ib. apply in_map_iff in Ib.
  destruct Ib as (c & <- & Ic). rewrite Forall_forall in F. now apply F.
Qed.

Section TenMinuteOrder.
Context {H : Host}.

Lemma accumulate_keys (acc : object TenMinute.bucket) (swap : Swap.t) :
  map fst (TenMinute.accumulate acc swap) = map fst acc
  \/ map fst (TenMinute.accumulate acc swap) = map fst acc ++ [TenMinute.timeKey swap].
Proof.
  unfold TenMinute.accumulate. rewrite !keys_modify.
  destruct (get acc (TenMinute.timeKey swap)) eqn:E; [now left | right].
  unfold set. rewrite E, map_app. reflexivity.
Qed.

Lemma aggregatedData_keys (l : list Swap.t) (acc : object TenMinute.bucket) (k : key) :
  In k (map fst (fold_left TenMinute.accumulate l acc)) ->
  In k (map fst acc) \/ In k (map TenMinute.timeKey l).
Proof.
  revert acc. induction l as [| s l IH]; intros acc I; cbn [fold_left] in I; [now left |].
  destruct (IH _ I) as [Ik | Ik]; [| right; now right].
  destruct (accumulate_keys acc s) as [E | E]; rewrite E in Ik; [now left |].
  apply in_app_or in Ik. destruct Ik as [Ik | [<- | []]]; [now left | right; now left].
Qed.

(** When every swap has a valid key, the ten-minute points come out in
    ascending time order. *)
Lemma chartData_ascending (l : list Swap.t) :
  validKeys l -> ascending (TenMinute.chartData l).
Proof.
  intros V. unfold ascending, TenMinute.chartData.
  apply StronglySorted_map. apply Array_sort_sorted.
  apply Forall_forall. intros p Ip.
  apply in_map_iff in Ip. destruct Ip as ([k b] & <- & Ie).
  cbn [datum_x fst].
  apply (Permutation_in _ (Object_entries_perm _)) in Ie.
  apply (in_map fst) in Ie. cbn [fst] in Ie.
  apply aggregatedData_keys in Ie. destruct Ie as [[] | Ik].
  apply in_map_iff in Ik. destruct Ik as (s & <- & Is).
  rewrite timeKey_clipped. unfold validKeys in V. rewrite Forall_forall in V.
  now apply V.
Qed.
End TenMinuteOrder.

(** ** Averages of descending timestamps *)

Lemma truncation_comp (p q : Q) :
  p == q -> Z.quot (Qnum p) (QDen p) = Z.quot (Qnum q) (QDen q).
Proof.
  destruct p as [a b], q as [c d]. unfold Qeq. cbn [Qnum Qden]. intros E.
  rewrite <- (Z.quot_mul_cancel_r a (Zpos b) (Zpos d)) by lia.
  rewrite <- (Z.quot_mul_cancel_r c (Zpos d) (Zpos b)) by lia.
  now rewrite E, (Z.mul_comm (Zpos d)).
Qed.

(** The average of [n] timestamps that add up to [s], in milliseconds. *)
Lemma average_value (s n : Z) :
  0 < n ->
  exists q : Qc,
    mul (div (ofZ s) (ofZ n)) (ofZ 1000) = Num q
    /\ q == Qmake (s * 1000) (Z.to_pos n).
Proof.
  intros Hn. unfold div, ofZ.
  destruct (Qc_eq_dec (Q2Qc (inject_Z n)) 0) as [E | _].
  { assert (n = 0) by (apply ofZ_inj; unfold ofZ; now f_equal). lia. }
  unfold mul. eexists. split; [reflexivity |].
  unfold Qcmult, Qcdiv, Qcmult, Qcinv. cbn [this Q2Qc].
  rewrite !Qred_correct.
  destruct n as [| n | n]; try lia.
  unfold Qeq, Qmult, Qinv, inject_Z. cbn [Qnum Qden Z.to_pos]. lia.
Qed.

Lemma truncate_average (s n : Z) :
  0 < n ->
  truncate (mul (div (ofZ s) (ofZ n)) (ofZ 1000)) = Some (Z.quot (s * 1000) n).
Proof.
  intros Hn. destruct (average_value s Hn) as (q & -> & E).
  unfold truncate. f_equal. rewrite (truncation_comp E).
  cbn [Qnum Qden]. now rewrite Z2Pos.id.
Qed.

(** An average within the range of [Date] is a valid date. *)
Lemma new_Date_average (s n : Z) :
  0 < n ->
  Z.abs (s * 1000) <= maxTime * n ->
  new_Date (mul (div (ofZ s) (ofZ n)) (ofZ 1000)) = Some (Z.quot (s * 1000) n).
Proof.
  intros Hn B. pose proof (truncate_average s Hn) as T.
  destruct (average_value s Hn) as (q & Eq & E). rewrite Eq in *.
  unfold new_Date. rewrite T.
  assert (R : Qle_bool (Qabs q) (inject_Z maxTime) = true); [| now rewrite R].
  apply Qle_bool_iff, Qabs_Qle_condition. rewrite E.
  unfold Qle, Qopp, inject_Z. cbn [Qnum Qden]. rewrite Z2Pos.id by lia. lia.
Qed.

Lemma sumZ_lower (m : Z) (l : list Z) :
  (forall x, In x l -> m <= x) -> m * Z.of_nat (length l) <= sumZ l.
Proof.
  induction l as [| a l IH]; intros B; cbn [sumZ fold_right length]; [lia |].
  specialize (IH (fun x I => B x (or_intror I))). specialize (B a (or_introl eq_refl)).
  fold (sumZ l). lia.
Qed.

Lemma sumZ_upper (m : Z) (l : list Z) :
  (forall x, In x l -> x <= m) -> sumZ l <= m * Z.of_nat (length l).
Proof.
  induction l as [| a l IH]; intros B; cbn [sumZ fold_right length]; [lia |].
  specialize (IH (fun x I => B x (or_intror I))). specialize (B a (or_introl eq_refl)).
  fold (sumZ l). lia.
Qed.

Lemma least_element (l : list Z) :
  l <> [] -> exists m, In m l /\ forall x, In x l -> m <= x.
Proof.
  induction l as [| a l IH]; [congruence | intros _].
  destruct l as [| b l].
  - exists a. split; [apply in_eq |]. intros x [<- | []]. lia.
  - destruct (IH ltac:(discriminate)) as (m & Im & Bm).
    destruct (Z_le_gt_dec a m).
    + exists a. split; [apply in_eq |]. intros x [<- | I]; [lia |].
      specialize (Bm x I). lia.
    + exists m. split; [now apply in_cons |]. intros x [<- | I]; [lia | now apply Bm].
Qed.

(** The average of a chunk is no earlier than that of a chunk all of
    whose timestamps are no later. *)
Lemma averageMs_mono (c1 c2 : list Z) :
  c1 <> [] -> c2 <> [] ->
  (forall x y, In x c1 -> In y c2 -> y <= x) ->
  averageMs c2 <= averageMs c1.
Proof.
  intros N1 N2 B. destruct (@least_element c1 N1) as (m & Im & Bm).
  assert (L1 : 0 < Z.of_nat (length c1)) by (destruct c1; [congruence | cbn [length]; lia]).
  assert (L2 : 0 < Z.of_nat (length c2)) by (destruct c2; [congruence | cbn [length]; lia]).
  pose proof (@sumZ_lower m c1 Bm) as S1.
  pose proof (@sumZ_upper m c2 (fun y Iy => B m y Im Iy)) as S2.
  unfold averageMs. transitivity (m * 1000).
  - rewrite <- (Z.quot_mul (m * 1000) (Z.of_nat (length c2))) by lia.
    apply Z.quot_le_mono; nia.
  - rewrite <- (Z.quot_mul (m * 1000) (Z.of_nat (length c1))) at 1 by lia.
    apply Z.quot_le_mono; nia.
Qed.

Lemma averageMs_bounds (ts : list Z) (lo hi : Z) :
  ts <> [] ->
  (forall t, In t ts -> lo <= t <= hi) ->
  1000 * lo <= averageMs ts <= 1000 * hi.
Proof.
  intros N B.
  assert (L : 0 < Z.of_nat (length ts)) by (destruct ts; [congruence | cbn [length]; lia]).
  pose proof (@sumZ_lower lo ts (fun t I => proj1 (B t I))) as Slo.
  pose proof (@sumZ_upper hi ts (fun t I => proj2 (B t I))) as Shi.
  unfold averageMs. split.
  - rewrite <- (Z.quot_mul (1000 * lo) (Z.of_nat (length ts))) at 1 by lia.
    apply Z.quot_le_mono; nia.
  - rewrite <- (Z.quot_mul (1000 * hi) (Z.of_nat (length ts))) by lia.
    apply Z.quot_le_mono; nia.
Qed.

Section Averages.
Context {H : Host}.

Lemma sum_of_parsed (c : list Swap.t) (ts : list Z) :
  map (fun swap => parseInt (Swap.timestamp swap)) c = map Some ts ->
  reduce_sum (fun swap => numOf (parseInt (Swap.timestamp swap))) c = ofZ (sumZ ts).
Proof.
  revert ts. induction c as [| s c IH]; intros [| t ts] E; try discriminate.
  - reflexivity.
  - cbn [map] in E. injection E as Et E.
    rewrite reduce_sum_cons, (IH ts E), Et. cbn [numOf sumZ fold_right].
    apply ofZ_add.
Qed.

(** The chunk's time: the average of its timestamps, in milliseconds,
    truncated. *)
Lemma Current_bucket_x (c : list Swap.t) (ts : list Z) :
  c <> [] ->
  map (fun swap => parseInt (Swap.timestamp swap)) c = map Some ts ->
  Forall inDateRange ts ->
  datum_x (Current.bucket c) = Some (averageMs ts).
Proof.
  intros Hc E R. unfold Current.bucket. cbn [datum_x].
  rewrite (@sum_of_parsed c ts E). unfold ofNat.
  assert (L : length c = length ts).
  { apply (f_equal (@length _)) in E. now rewrite !length_map in E. }
  assert (N : 0 < Z.of_nat (length ts)).
  { destruct ts; [destruct c; [congruence | discriminate] | cbn [length]; lia]. }
  rewrite L. apply new_Date_average; [exact N |].
  rewrite Forall_forall in R.
  pose proof (@sumZ_lower (- 8640000000000) ts (fun t I => proj1 (R t I))) as Lo.
  pose proof (@sumZ_upper 8640000000000 ts (fun t I => proj2 (R t I))) as Hi.
  unfold maxTime. lia.
Qed.
End Averages.

Lemma StronglySorted_app_inv (A : Type) (R : A -> A -> Prop) (l1 l2 : list A) :
  StronglySorted R (l1 ++ l2) ->
  StronglySorted R l2 /\ forall x y, In x l1 -> In y l2 -> R x y.
Proof.
  induction l1 as [| a l1 IH]; cbn [app]; intros S.
  - split; [exact S | intros x y []].
  - inversion S as [| ? ? S' F]; subst. destruct (IH S') as [S2 B].
    split; [exact S2 |]. intros x y [<- | Ix] Iy; [| now apply B].
    rewrite Forall_forall in F. apply F. apply in_or_app. now right.
Qed.

Lemma chunk_members (A : Type) (n : nat) (l c : list A) (y : A) :
  In c (chunks n l) -> In y c -> In y l.
Proof.
  intros Ic Iy. rewrite <- (concat_chunks n l). apply in_concat. now exists c.
Qed.

Lemma chunk_nonempty (A : Type) (n : nat) (l c : list A) :
  In c (chunks n l) -> c <> [].
Proof.
  intros Ic N. pose proof (chunks_bounds n l) as B.
  rewrite Forall_forall in B. specialize (B c Ic). rewrite N in B. cbn in B. lia.
Qed.

(** Induction along the chunks of a list. *)
Lemma chunk_induction (A : Type) (n : nat) (P : list A -> Prop) :
  P [] ->
  (forall l, l <> [] -> P (skipn (S n) l) -> P l) ->
  forall l, P l.
Proof.
  intros P0 Pstep l.
  induction l as [l IH] using (well_founded_induction
                                 (wf_inverse_image _ _ _ (@length A) Nat.lt_wf_0)).
  destruct l as [| a l]; [exact P0 |].
  apply Pstep; [discriminate |]. apply IH.
  rewrite length_skipn. cbn [length]. lia.
Qed.

(** The averages of the chunks of a descending list descend. *)
Lemma chunk_averages_descend (n : nat) (ts : list Z) :
  StronglySorted Z.ge ts ->
  StronglySorted (fun a b => b <= a) (map averageMs (chunks n ts)).
Proof.
  induction ts as [| ts N IH] using (chunk_induction n); intros Sd.
  { rewrite chunks_nil. constructor. }
  rewrite (@chunks_step _ n ts N). cbn [map].
  rewrite <- (firstn_skipn (S n) ts) in Sd.
  destruct (StronglySorted_app_inv _ _ Sd) as [Srest B].
  constructor; [now apply IH |].
  apply Forall_forall. intros v Iv. apply in_map_iff in Iv.
  destruct Iv as (c & <- & Ic).
  apply averageMs_mono.
  - destruct ts; [congruence | discriminate].
  - exact (@chunk_nonempty _ _ _ _ Ic).
  - intros x y Ix Iy. specialize (B x y Ix (@chunk_members _ _ _ _ _ Ic Iy)). lia.
Qed.

Lemma map_eq_Forall2 (A B C : Type) (f : A -> C) (g : B -> C) (l1 : list A) (l2 : list B) :
  map f l1 = map g l2 -> Forall2 (fun a b => f a = g b) l1 l2.
Proof.
  revert l2. induction l1 as [| a l1 IH]; intros [| b l2] E; try discriminate;
    constructor.
  - now injection E.
  - apply IH. now injection E.
Qed.

Lemma Forall2_map_eq (A B C : Type) (f : A -> C) (g : B -> C) (l1 : list A) (l2 : list B) :
  Forall2 (fun a b => f a = g b) l1 l2 -> map f l1 = map g l2.
Proof. induction 1; cbn [map]; congruence. Qed.

Section CountOrder.
Context {H : Host}.

(** Fetched in descending order, the chunks of 100 come out in
    descending time order: the loop keeps the order of the list. *)
Lemma aggregateData_descending (l : list Swap.t) :
  fetchedDescending l -> descending (Current.aggregateData l).
Proof.
  intros (ts & E & S & R). unfold descending.
  apply Sorted_StronglySorted in S; [| intros x y z; lia].
  rewrite Current_aggregateData_chunks.
  assert (X : map datum_x (map Current.bucket (chunks 99 l))
              = map Some (map averageMs (chunks 99 ts))).
  { rewrite !map_map.
    pose proof (chunks_alike 99 (map_eq_Forall2 _ _ _ _ E)) as F.
    pose proof (fun c => @chunk_nonempty _ 99 l c) as N.
    assert (Rc : forall tc, In tc (chunks 99 ts) -> Forall inDateRange tc).
    { intros tc I. apply Forall_forall. intros t It.
      rewrite Forall_forall in R. apply R. exact (@chunk_members _ _ _ _ _ I It). }
    induction F as [| c tc cs tcs Fc _ IH]; [reflexivity |].
    cbn [map]. rewrite IH by (intros c' I; first [apply N | apply Rc]; now right). f_equal.
    apply Current_bucket_x;
      [apply N; now left | now apply Forall2_map_eq | apply Rc; now left]. }
  rewrite X. apply StronglySorted_map. cbn [timeLe].
  now apply chunk_averages_descend.
Qed.
End CountOrder.

Lemma Sorted_repeat_then (a b : Z) (n : nat) :
  a >= b -> Sorted Z.ge (repeat a n ++ [b]).
Proof.
  intros Hab. induction n as [| n IH]; cbn [repeat app].
  - repeat constructor.
  - constructor; [exact IH |].
    destruct n; cbn [repeat app]; constructor; lia.
Qed.

Lemma inDateRange_repeat_then (a b : Z) (n : nat) :
  inDateRange a -> inDateRange b -> Forall inDateRange (repeat a n ++ [b]).
Proof.
  intros Ra Rb. apply Forall_app. split; [| constructor; [exact Rb | constructor]].
  apply Forall_forall. intros t I. now rewrite (repeat_spec _ _ _ I).
Qed.

(** C2, as stated, fails for the chunks of 100: the loop does not sort, so
    a list fetched in descending order gives buckets in descending order.
    With 100 swaps at time 2000 followed by one at time 1000, the first
    bucket is at 2000000 ms and the second at 1000000 ms.  It also fails
    for the ten-minute buckets when a timestamp lies beyond the range of
    [Date]: the swaps at 8640000000001 and 0 arrive in descending order,
    and the chart gets the bucket at 0 followed by one at an invalid
    date. *)
Lemma chunks_of_100_are_not_ascending :
  let l := repeat (exampleSwap "1" "2000") 100 ++ [exampleSwap "1" "1000"] in
  let far := [exampleSwap "1" "8640000000001"; exampleSwap "1" "0"] in
  (@fetchedDescending ExampleHost.utc l
   /\ map datum_x (@Current.aggregateData ExampleHost.utc l)
      = [Some 2000000; Some 1000000]
   /\ ~ ascending (@Current.aggregateData ExampleHost.utc l))
  /\ (map (fun swap => @parseInt ExampleHost.utc (Swap.timestamp swap)) far
      = [Some 8640000000001; Some 0]
      /\ map datum_x (@TenMinute.chartData ExampleHost.utc far) = [Some 0; None]
      /\ ~ ascending (@TenMinute.chartData ExampleHost.utc far)).
Proof.
  cbv zeta.
  assert (X : map datum_x (@Current.aggregateData ExampleHost.utc
                             (repeat (exampleSwap "1" "2000") 100 ++ [exampleSwap "1" "1000"]))
              = [Some 2000000; Some 1000000]) by (vm_compute; reflexivity).
  assert (Y : map datum_x (@TenMinute.chartData ExampleHost.utc
                             [exampleSwap "1" "8640000000001"; exampleSwap "1" "0"])
              = [Some 0; None]) by (vm_compute; reflexivity).
  split; [split; [| split; [exact X |]] | split; [| split; [exact Y |]]].
  - exists (repeat 2000 100 ++ [1000]). split; [vm_compute; reflexivity |]. split.
    + apply Sorted_repeat_then. lia.
    + apply inDateRange_repeat_then; unfold inDateRange; lia.
  - unfold ascending. rewrite X. intros S.
    inversion S as [| ? ? _ F]; subst. inversion F as [| ? ? T _]; subst.
    cbn in T. lia.
  - vm_compute. reflexivity.
  - unfold ascending. rewrite Y. intros S.
    inversion S as [| ? ? _ F]; subst. inversion F as [| ? ? T _]; subst.
    exact T.
Qed.

(** C2, amended. For a swap list fetched in descending timestamp order,
    every timestamp parsing to a time that [Date] can hold and every swap
    getting a valid ten-minute key, the ten-minute buckets handed to the
    chart are sorted in ascending time order, and the chunks of 100, which
    are not sorted, are handed over in the order of the list: descending
    in time. *)
Theorem buckets_are_time_ordered (H : Host) (l : list Swap.t) :
  fetchedDescending l ->
  validKeys l ->
  ascending (TenMinute.chartData l)
  /\ descending (Current.aggregateData l).
Proof.
  intros F V. split; [now apply chartData_ascending | now apply aggregateData_descending].
Qed.

Lemma buckets_are_time_ordered_witness :
  let l := [exampleSwap "10" "1300"; exampleSwap "20" "1000"; exampleSwap "5" "100"] in
  (@fetchedDescending ExampleHost.utc l /\ @validKeys ExampleHost.utc l)
  /\ ascending (@TenMinute.chartData ExampleHost.utc l)
  /\ descending (@Current.aggregateData ExampleHost.utc l).
Proof.
  intros l.
  assert (F : @fetchedDescending ExampleHost.utc l).
  { exists [1300; 1000; 100]. split; [reflexivity |]. split.
    - repeat constructor; lia.
    - repeat constructor; unfold inDateRange; lia. }
  assert (V : @validKeys ExampleHost.utc l).
  { unfold validKeys.
    repeat (apply Forall_cons; [vm_compute; discriminate |]). apply Forall_nil. }
  split; [now split |].
  exact (@buckets_are_time_ordered ExampleHost.utc l F V).
Defined.

(** * Further properties of the code *)

(** ** The chunks of 100 *)

Lemma chunks_count (A : Type) (n : nat) (l : list A) :
  length (chunks n l) = ((length l + n) / S n)%nat.
Proof.
  induction l as [| l N IH] using (chunk_induction n).
  - rewrite chunks_nil. cbn [length]. symmetry. apply Nat.div_small. lia.
  - rewrite (@chunks_step _ n l N). cbn [length]. rewrite IH, length_skipn.
    assert (Hl : (0 < length l)%nat) by (destruct l; [congruence | cbn; lia]).
    destruct (Nat.le_gt_cases (S n) (length l)) as [Hge | Hlt].
    + replace (length l + n)%nat with ((length l - S n + n) + 1 * S n)%nat by lia.
      rewrite Nat.div_add by lia. lia.
    + replace (length l - S n + n)%nat with n by lia.
      rewrite (Nat.div_small n) by lia.
      apply (Nat.div_unique _ _ _ (length l - 1)); lia.
Qed.

(** All chunks but the last are full. *)
Lemma chunks_full_but_last (A : Type) (n : nat) (l : list A) :
  Forall (fun c => length c = S n) (removelast (chunks n l)).
Proof.
  induction l as [| l N IH] using (chunk_induction n).
  - rewrite chunks_nil. constructor.
  - rewrite (@chunks_step _ n l N).
    destruct (chunks n (skipn (S n) l)) as [| c cs] eqn:E.
    + constructor.
    + cbn [removelast]. cbn [removelast] in IH. constructor; [| exact IH].
      rewrite length_firstn.
      assert (skipn (S n) l <> []) by (intros Z; rewrite Z, chunks_nil in E; discriminate).
      assert (length (skipn (S n) l) <> 0%nat) by (destruct (skipn (S n) l); cbn; congruence).
      rewrite length_skipn in *. lia.
Qed.

(** X1. The loop of the current app cuts the swap list into consecutive
    chunks without losing, repeating or reordering a swap: the buckets are
    the loop body applied to chunks whose concatenation is the list, every
    chunk has between 1 and 100 swaps, all but the last have exactly 100,
    and there are [ceil(n / 100)] buckets. *)
Theorem chunks_of_100_partition_the_list (H : Host) (l : list Swap.t) :
  exists cs : list (list Swap.t),
    Current.aggregateData l = map Current.bucket cs
    /\ concat cs = l
    /\ Forall (fun c => (1 <= length c <= 100)%nat) cs
    /\ Forall (fun c => length c = 100%nat) (removelast cs)
    /\ length (Current.aggregateData l) = ((length l + 99) / 100)%nat.
Proof.
  exists (chunks 99 l). repeat split.
  - apply Current_aggregateData_chunks.
  - apply concat_chunks.
  - apply chunks_bounds.
  - apply chunks_full_but_last.
  - rewrite Current_aggregateData_chunks, length_map. apply chunks_count.
Qed.

(** X2. The time the current app gives a bucket lies within the time
    range of its chunk: when the chunk's timestamps parse and all lie
    between [lo] and [hi] seconds, two times that [Date] can hold, the
    bucket's date is valid and lies between [1000 * lo] and [1000 * hi]
    milliseconds. *)
Theorem bucket_time_within_chunk_range
    (H : Host) (c : list Swap.t) (ts : list Z) (lo hi : Z) :
  c <> [] ->
  map (fun swap => parseInt (Swap.timestamp swap)) c = map Some ts ->
  (forall t, In t ts -> lo <= t <= hi) ->
  inDateRange lo ->
  inDateRange hi ->
  exists ms, datum_x (Current.bucket c) = Some ms /\ 1000 * lo <= ms <= 1000 * hi.
Proof.
  intros N E B Rlo Rhi. exists (averageMs ts). split.
  - apply Current_bucket_x; trivial.
    apply Forall_forall. intros t I. specialize (B t I).
    unfold inDateRange in *. lia.
  - apply averageMs_bounds; trivial.
    intros Z. subst ts. destruct c; [congruence | discriminate].
Qed.

Lemma bucket_time_within_chunk_range_witness :
  let c := [exampleSwap "10" "1300"; exampleSwap "20" "1000"; exampleSwap "5" "100"] in
  exists ms, datum_x (@Current.bucket ExampleHost.utc c) = Some ms
             /\ 1000 * 100 <= ms <= 1000 * 1300.
Proof.
  intros c.
  apply (@bucket_time_within_chunk_range ExampleHost.utc c [1300; 1000; 100] 100 1300).
  - discriminate.
  - reflexivity.
  - intros t [<- | [<- | [<- | []]]]; lia.
  - unfold inDateRange. lia.
  - unfold inDateRange. lia.
Defined.

(** ** The object of the ten-minute reducer *)

Lemma key_eqb_refl (k : key) : key_eqb k k = true.
Proof. now apply key_eqb_eq. Qed.

Lemma key_eqb_neq (a b : key) : a <> b -> key_eqb a b = false.
Proof.
  intros N. destruct (key_eqb a b) eqn:E; [| reflexivity].
  apply key_eqb_eq in E. congruence.
Qed.

Section MoreObjectFacts.
Variable V : Type.
Implicit Types (o : object V) (k : key).

Lemma get_modify_other (f : V -> V) k k' o :
  k <> k' -> get (modify f k' o) k = get o k.
Proof.
  intros N. induction o as [| [k0 v0] o IH]; cbn [modify get]; [reflexivity |].
  destruct (key_eqb k' k0) eqn:E'; cbn [get].
  - apply key_eqb_eq in E'. subst k0. now rewrite (key_eqb_neq N).
  - now rewrite IH.
Qed.

Lemma get_app_other k k' (v : V) o :
  k <> k' -> get (o ++ [(k', v)]) k = get o k.
Proof.
  intros N. induction o as [| [k0 v0] o IH]; cbn [app get].
  - now rewrite (key_eqb_neq N).
  - now rewrite IH.
Qed.

Lemma get_absent k o : get o k = None <-> ~ In k (map fst o).
Proof.
  induction o as [| [k' v'] o IH]; cbn [get map fst In]; [tauto |].
  destruct (key_eqb k k') eqn:E.
  - apply key_eqb_eq in E. split; [discriminate | intros N; exfalso; auto].
  - rewrite IH. split; [| tauto]. intros N [E' | I]; [| tauto].
    subst k'. now rewrite key_eqb_refl in E.
Qed.

Lemma get_In k (v : V) o : get o k = Some v -> In (k, v) o.
Proof.
  induction o as [| [k' v'] o IH]; cbn [get]; [discriminate |].
  destruct (key_eqb k k') eqn:E.
  - apply key_eqb_eq in E. intros [= ->]. subst. apply in_eq.
  - intros G. apply in_cons. now apply IH.
Qed.

Lemma In_get k (v : V) o : NoDup (map fst o) -> In (k, v) o -> get o k = Some v.
Proof.
  induction o as [| [k' v'] o IH]; cbn [map fst get]; intros D I; [destruct I |].
  inversion D as [| ? ? Nk D']; subst. destruct I as [[= -> ->] | I].
  - now rewrite key_eqb_refl.
  - rewrite key_eqb_neq; [now apply IH |].
    intros ->. apply Nk. now apply (in_map fst) in I.
Qed.
End MoreObjectFacts.

Section TenMinuteBuckets.
Context {H : Host}.

Lemma accumulate_NoDup (acc : object TenMinute.bucket) (swap : Swap.t) :
  NoDup (map fst acc) -> NoDup (map fst (TenMinute.accumulate acc swap)).
Proof.
  intros D. unfold TenMinute.accumulate. rewrite !keys_modify.
  destruct (get acc (TenMinute.timeKey swap)) eqn:E; [exact D |].
  unfold set. rewrite E, map_app. cbn [map fst].
  apply NoDup_app; [exact D | repeat constructor; intros [] |].
  intros k Ik [<- | []]. apply get_absent in E. contradiction.
Qed.

Lemma aggregatedData_NoDup (l : list Swap.t) :
  NoDup (map fst (TenMinute.aggregatedData l)).
Proof.
  unfold TenMinute.aggregatedData.
  assert (G : forall acc, NoDup (map fst acc) ->
                          NoDup (map fst (fold_left TenMinute.accumulate l acc))).
  { induction l as [| s l IH]; intros acc D; cbn [fold_left]; [exact D |].
    apply IH. now apply accumulate_NoDup. }
  apply G. constructor.
Qed.

Lemma get_accumulate_same (acc : object TenMinute.bucket) (swap : Swap.t) :
  get (TenMinute.accumulate acc swap) (TenMinute.timeKey swap)
  = addSwap (get acc (TenMinute.timeKey swap)) swap.
Proof.
  unfold TenMinute.accumulate, addSwap. rewrite !get_modify.
  destruct (get acc (TenMinute.timeKey swap)) as [b |] eqn:E.
  - rewrite E. reflexivity.
  - unfold set. rewrite E, get_app_absent by assumption. reflexivity.
Qed.

Lemma get_accumulate_other (acc : object TenMinute.bucket) (swap : Swap.t) (k : key) :
  k <> TenMinute.timeKey swap ->
  get (TenMinute.accumulate acc swap) k = get acc k.
Proof.
  intros N. unfold TenMinute.accumulate. rewrite !get_modify_other by assumption.
  destruct (get acc (TenMinute.timeKey swap)) eqn:E; [reflexivity |].
  unfold set. rewrite E. now apply get_app_other.
Qed.

Lemma get_fold_accumulate (l : list Swap.t) (acc : object TenMinute.bucket) (k : key) :
  get (fold_left TenMinute.accumulate l acc) k
  = fold_left addSwap (members k l) (get acc k).
Proof.
  revert acc. induction l as [| s l IH]; intros acc; cbn [fold_left]; [reflexivity |].
  rewrite IH. unfold members. cbn [filter].
  destruct (key_eqb k (TenMinute.timeKey s)) eqn:E.
  - apply key_eqb_eq in E. subst k. cbn [fold_left]. now rewrite get_accumulate_same.
  - rewrite get_accumulate_other; [reflexivity |].
    intros ->. now rewrite key_eqb_refl in E.
Qed.

Lemma fold_addSwap (ms : list Swap.t) (total : number) (count : nat) :
  fold_left addSwap ms (Some {| TenMinute.totalAmount := total; TenMinute.count := count |})
  = Some {| TenMinute.totalAmount :=
              fold_left (fun sum swap => add sum (parseFloat (Swap.amountUSD swap))) ms total;
            TenMinute.count := (count + length ms)%nat |}.
Proof.
  revert total count. induction ms as [| s ms IH]; intros total count; cbn [fold_left length].
  - now rewrite Nat.add_0_r.
  - unfold addSwap at 2. cbn [TenMinute.totalAmount TenMinute.count].
    rewrite IH. do 2 f_equal. lia.
Qed.

(** The bucket the reducer holds at a key: none when no swap has the key,
    otherwise the sum and the number of the swaps that have it. *)
Lemma get_aggregatedData (l : list Swap.t) (k : key) :
  get (TenMinute.aggregatedData l) k
  = match members k l with
    | [] => None
    | _ :: _ =>
        Some {| TenMinute.totalAmount :=
                  reduce_sum (fun swap => parseFloat (Swap.amountUSD swap)) (members k l);
                TenMinute.count := length (members k l) |}
    end.
Proof.
  unfold TenMinute.aggregatedData. rewrite get_fold_accumulate. cbn [get].
  destruct (members k l) as [| s ms]; [reflexivity |].
  cbn [fold_left]. unfold addSwap at 2. cbn [TenMinute.totalAmount TenMinute.count].
  rewrite fold_addSwap. reflexivity.
Qed.
End TenMinuteBuckets.

Lemma list_sum_perm (l1 l2 : list nat) :
  Permutation l1 l2 -> list_sum l1 = list_sum l2.
Proof.
  induction 1 as [| a l1 l2 _ IH | a b l | l1 l2 l3 _ IH1 _ IH2]; cbn [list_sum fold_right] in *;
    try fold (list_sum l1) in *; try fold (list_sum l2) in *; try fold (list_sum l) in *; lia.
Qed.

Lemma list_sum_modify (V : Type) (w : V -> nat) (f : V -> V) (d : nat) (k : key) (o : object V) :
  get o k <> None ->
  (forall v, w (f v) = (w v + d)%nat) ->
  list_sum (map (fun e => w (snd e)) (modify f k o))
  = (list_sum (map (fun e => w (snd e)) o) + d)%nat.
Proof.
  intros G Hf. induction o as [| [k' v'] o IH]; cbn [get modify] in *; [congruence |].
  destruct (key_eqb k k'); cbn [map list_sum fold_right snd].
  - rewrite Hf. fold (list_sum (map (fun e => w (snd e)) o)). lia.
  - fold (list_sum (map (fun e => w (snd e)) (modify f k o))).
    fold (list_sum (map (fun e => w (snd e)) o)). rewrite (IH G). lia.
Qed.

Section TenMinuteChart.
Context {H : Host}.

Lemma chartData_perm (l : list Swap.t) :
  Permutation (TenMinute.chartData l)
    (map (fun entry => XYCount (fst entry) (TenMinute.totalAmount (snd entry))
                               (TenMinute.count (snd entry)))
         (TenMinute.aggregatedData l)).
Proof.
  unfold TenMinute.chartData. rewrite Array_sort_perm.
  rewrite (Permutation_map _ (Object_entries_perm (TenMinute.aggregatedData l))).
  apply Permutation_refl'. apply map_ext_in. intros [k b] I. cbn [fst snd].
  f_equal. apply (in_map fst) in I. cbn [fst] in I.
  apply aggregatedData_keys in I. destruct I as [[] | I].
  apply in_map_iff in I. destruct I as (s & <- & _). apply timeKey_clipped.
Qed.

Lemma In_members (k : key) (s : Swap.t) (l : list Swap.t) :
  In s (members k l) <-> In s l /\ k = TenMinute.timeKey s.
Proof. unfold members. rewrite filter_In, key_eqb_eq. tauto. Qed.

Lemma In_chartData (l : list Swap.t) (p : datum) :
  In p (TenMinute.chartData l)
  <-> exists s, In s l /\ p = pointOf (TenMinute.timeKey s) l.
Proof.
  rewrite (Permutation_in' eq_refl (chartData_perm l)). rewrite in_map_iff. split.
  - intros ([k b] & <- & I). cbn [fst snd].
    apply (@In_get _ _ _ _ (aggregatedData_NoDup l)) in I.
    rewrite get_aggregatedData in I.
    destruct (members k l) as [| s ms] eqn:M; [discriminate |].
    injection I as <-.
    assert (Is : In s (members k l)) by (rewrite M; apply in_eq).
    apply In_members in Is. destruct Is as [Is ->].
    exists s. split; [exact Is |]. unfold pointOf. now rewrite M.
  - intros (s & Is & ->). set (k := TenMinute.timeKey s).
    assert (Im : In s (members k l)) by (apply In_members; now split).
    pose proof (get_aggregatedData l k) as G.
    destruct (members k l) as [| s' ms] eqn:M; [destruct Im |].
    apply get_In in G. eexists. split; [| exact G].
    unfold pointOf. now rewrite M.
Qed.

Lemma chartData_NoDup (l : list Swap.t) :
  NoDup (map datum_x (TenMinute.chartData l)).
Proof.
  apply (Permutation_NoDup (l := map fst (TenMinute.aggregatedData l)));
    [| apply aggregatedData_NoDup].
  rewrite (Permutation_map datum_x (chartData_perm l)), map_map.
  apply Permutation_refl'. now apply map_ext.
Qed.

Lemma accumulate_counts (acc : object TenMinute.bucket) (swap : Swap.t) :
  list_sum (map (fun e => TenMinute.count (snd e)) (TenMinute.accumulate acc swap))
  = (list_sum (map (fun e => TenMinute.count (snd e)) acc) + 1)%nat.
Proof.
  unfold TenMinute.accumulate.
  set (k := TenMinute.timeKey swap).
  set (acc1 := match get acc k with None => _ | Some _ => acc end).
  assert (G : get acc1 k <> None /\
              list_sum (map (fun e => TenMinute.count (snd e)) acc1)
              = list_sum (map (fun e => TenMinute.count (snd e)) acc)).
  { subst acc1. destruct (get acc k) eqn:E.
    - split; congruence.
    - unfold set. rewrite E. split.
      + rewrite get_app_absent by assumption. discriminate.
      + rewrite map_app, list_sum_app. cbn. lia. }
  destruct G as [G T].
  rewrite (@list_sum_modify _ TenMinute.count _ 1%nat).
  - rewrite (@list_sum_modify _ TenMinute.count _ 0%nat); auto. lia.
  - rewrite get_modify. destruct (get acc1 k); [discriminate | congruence].
  - reflexivity.
Qed.
End TenMinuteChart.

(** X3. The ten-minute chart shows exactly one point for each interval
    that holds a swap and none for any other: its points are the points
    [pointOf k] of the keys [k] of the swaps, each carrying the sum of the
    amounts and the number of the swaps with that key, and no two points
    share a time. *)
Theorem ten_minute_chart_one_point_per_interval (H : Host) (l : list Swap.t) :
  (forall p : datum,
     In p (TenMinute.chartData l)
     <-> exists s, In s l /\ p = pointOf (TenMinute.timeKey s) l)
  /\ NoDup (map datum_x (TenMinute.chartData l)).
Proof. split; [apply In_chartData | apply chartData_NoDup]. Qed.

(** X4. The ten-minute buckets count every swap exactly once: the counts
    of the chart points add up to the length of the swap list. *)
Theorem ten_minute_counts_add_up (H : Host) (l : list Swap.t) :
  list_sum (map datum_count (TenMinute.chartData l)) = length l.
Proof.
  rewrite (list_sum_perm (Permutation_map datum_count (chartData_perm l))).
  rewrite map_map. cbn [datum_count].
  unfold TenMinute.aggregatedData.
  assert (G : forall acc,
             list_sum (map (fun e => TenMinute.count (snd e))
                           (fold_left TenMinute.accumulate l acc))
             = (list_sum (map (fun e => TenMinute.count (snd e)) acc) + length l)%nat).
  { induction l as [| s l IH]; intros acc; cbn [fold_left length]; [lia |].
    rewrite IH, accumulate_counts. lia. }
  apply G.
Qed.

(** ** The sum of the bucket totals *)



(** The totals the components compute are the sums of the amounts over
    these buckets, bucket by bucket. *)
Lemma totals_by_bucket (H : Host) (l : list Swap.t) :
  map datum_y (Current.aggregateData l)
  = map (reduce_sum (fun swap => parseFloat (Swap.amountUSD swap))) (Doubles.countBuckets l)
  /\ map datum_y (TenMinute.chartData l)
     = map (reduce_sum (fun swap => parseFloat (Swap.amountUSD swap)))
           (Doubles.tenMinuteBuckets l).
Proof.
  split.
  - rewrite Current_aggregateData_chunks, map_map. reflexivity.
  - unfold Doubles.tenMinuteBuckets. rewrite map_map. apply map_ext_in.
    intros p Ip. apply In_chartData in Ip. now destruct Ip as (s & _ & ->).
Qed.

Section DoubleTotals.
Context {H : Host}.
Variable amount64 : Swap.t -> float.
Local Abbreviation amount := (fun swap : Swap.t => Doubles.value (amount64 swap)).





End DoubleTotals.




(** ** The ten-minute key in any time zone *)

Lemma timeKey_steady (H : Host) (z : Z) (swap : Swap.t) (t k : Z) :
  parseInt (Swap.timestamp swap) = Some t ->
  zoneSteady z t ->
  TenMinute.timeKey swap = Some k ->
  k = 600000 * ((1000 * t + z) / 600000) - z.
Proof.
  intros E St K. destruct (timeKey_valid _ K) as (t' & E' & _ & C).
  assert (t' = t) by congruence. subst t'.
  rewrite (local_mark_steady St) in C.
  now destruct (TimeClip_Some _ C) as [-> _].
Qed.

(** X5. Where the zone stays at one offset [z] around a swap (at its
    instant and at the start of its local ten-minute interval), the valid
    key of a swap whose timestamp parses to [t] is the start of the local
    ten-minute interval that holds it: the key lies at most ten minutes
    below [1000 * t], and the key seen in local time is a multiple of ten
    minutes.  Two such swaps share a bucket exactly when their local times
    fall into the same ten-minute interval, and then they are less than
    600 seconds apart.  (Across a change of the clocks none of this need
    hold.) *)
Theorem ten_minute_key_holds_its_swap
    (H : Host) (z : Z) (s1 s2 : Swap.t) (t1 t2 k1 k2 : Z) :
  parseInt (Swap.timestamp s1) = Some t1 ->
  parseInt (Swap.timestamp s2) = Some t2 ->
  zoneSteady z t1 ->
  zoneSteady z t2 ->
  TenMinute.timeKey s1 = Some k1 ->
  TenMinute.timeKey s2 = Some k2 ->
  k1 <= 1000 * t1 < k1 + 600000
  /\ (k1 + z) mod 600000 = 0
  /\ (k1 = k2 <-> (1000 * t1 + z) / 600000 = (1000 * t2 + z) / 600000)
  /\ (k1 = k2 -> Z.abs (t1 - t2) < 600).
Proof.
  intros E1 E2 St1 St2 K1 K2.
  rewrite (timeKey_steady _ E1 St1 K1), (timeKey_steady _ E2 St2 K2).
  pose proof (Z.div_mod (1000 * t1 + z) 600000 ltac:(lia)) as D1.
  pose proof (Z.mod_pos_bound (1000 * t1 + z) 600000 ltac:(lia)) as B1.
  pose proof (Z.div_mod (1000 * t2 + z) 600000 ltac:(lia)) as D2.
  pose proof (Z.mod_pos_bound (1000 * t2 + z) 600000 ltac:(lia)) as B2.
  set (q1 := (1000 * t1 + z) / 600000) in *.
  set (q2 := (1000 * t2 + z) / 600000) in *.
  split; [lia |]. split; [| split].
  - replace (600000 * q1 - z + z) with (q1 * 600000) by lia.
    apply Z.mod_mul. lia.
  - split; intros E; lia.
  - intros E. assert (q1 = q2) by lia. lia.
Qed.

Lemma ten_minute_key_holds_its_swap_witness :
  let s1 := exampleSwap "10" "100" in
  let s2 := exampleSwap "20" "400" in
  let z := 12 * msPerHour + 45 * msPerMinute in
  - 300000 <= 1000 * 100 < - 300000 + 600000
  /\ (- 300000 + z) mod 600000 = 0
  /\ (- 300000 = 300000 <-> (1000 * 100 + z) / 600000 = (1000 * 400 + z) / 600000)
  /\ (- 300000 = 300000 -> Z.abs (100 - 400) < 600).
Proof.
  intros s1 s2 z.
  apply (@ten_minute_key_holds_its_swap ExampleHost.plus1245 z s1 s2 100 400 (-300000) 300000);
    solve [reflexivity | now split].
Defined.

Section ZoneShift.
Variables H1 H2 : Host.
Hypothesis sameFloat : forall s, @parseFloat H1 s = @parseFloat H2 s.
Hypothesis sameInt : forall s, @parseInt H1 s = @parseInt H2 s.
Variable steps : Z.
Hypothesis shiftedAt :
  forall t, @LocalTZA H2 t true = @LocalTZA H1 t true + 600000 * steps.
Hypothesis shiftedLocal :
  forall t, @LocalTZA H2 t false = @LocalTZA H1 (t - 600000 * steps) false + 600000 * steps.

Lemma timeKey_shifted (s : Swap.t) : @TenMinute.timeKey H1 s = @TenMinute.timeKey H2 s.
Proof.
  destruct (@parseInt H1 (Swap.timestamp s)) as [t |] eqn:E.
  - rewrite (@timeKey_parsed H1 _ _ E).
    rewrite sameInt in E. rewrite (@timeKey_parsed H2 _ _ E).
    unfold keyOf, UTC, LocalTime.
    destruct (TimeClip (t * 1000)) as [ms |]; [| reflexivity].
    rewrite shiftedAt.
    replace (ms + (@LocalTZA H1 ms true + 600000 * steps))
      with (ms + @LocalTZA H1 ms true + steps * 600000) by lia.
    rewrite Z.div_add by lia. rewrite shiftedLocal.
    replace (600000 * ((ms + @LocalTZA H1 ms true) / 600000 + steps) - 600000 * steps)
      with (600000 * ((ms + @LocalTZA H1 ms true) / 600000)) by lia.
    f_equal. lia.
  - rewrite (@timeKey_unparsed H1 _ E).
    rewrite sameInt in E. now rewrite (@timeKey_unparsed H2 _ E).
Qed.

Lemma chartData_shifted (l : list Swap.t) :
  @TenMinute.chartData H1 l = @TenMinute.chartData H2 l.
Proof.
  unfold TenMinute.chartData, TenMinute.aggregatedData. do 3 f_equal.
  generalize (@nil (key * TenMinute.bucket)).
  induction l as [| s l IH]; intros acc; cbn [fold_left]; [reflexivity |].
  rewrite <- IH. f_equal. unfold TenMinute.accumulate.
  now rewrite timeKey_shifted, sameFloat.
Qed.
End ZoneShift.

(** X6. The ten-minute buckets do not tell apart two time zones that keep
    a constant distance of whole ten-minute steps (two fixed offsets, or
    two zones that change their clocks by the same amount at the same
    instants): two hosts with the same [parseFloat] and [parseInt] whose
    rules differ this way, at every instant and at every local time,
    produce the same chart data for every swap list. *)
Theorem ten_minute_buckets_same_in_aligned_zones
    (H1 H2 : Host) (steps : Z) (l : list Swap.t) :
  (forall s, @parseFloat H1 s = @parseFloat H2 s) ->
  (forall s, @parseInt H1 s = @parseInt H2 s) ->
  (forall t, @LocalTZA H2 t true = @LocalTZA H1 t true + 600000 * steps) ->
  (forall t, @LocalTZA H2 t false
             = @LocalTZA H1 (t - 600000 * steps) false + 600000 * steps) ->
  @TenMinute.chartData H1 l = @TenMinute.chartData H2 l.
Proof. intros Pf Pi At Loc. eapply chartData_shifted; eassumption. Qed.

Lemma ten_minute_buckets_same_in_aligned_zones_witness :
  let l := [exampleSwap "10" "300"; exampleSwap "20" "0"; exampleSwap "7" "700"] in
  @TenMinute.chartData ExampleHost.utc l
  = @TenMinute.chartData ExampleHost.minus0500 l.
Proof.
  intros l.
  apply (@ten_minute_buckets_same_in_aligned_zones
           ExampleHost.utc ExampleHost.minus0500 (-30) l);
    intros; reflexivity.
Defined.

(** ** Input that does not parse *)

Lemma add_NaN_l (a : number) : add NaN a = NaN.
Proof. reflexivity. Qed.

Lemma add_NaN_r (a : number) : add a NaN = NaN.
Proof. now destruct a. Qed.

Lemma reduce_sum_NaN (A : Type) (f : A -> number) (l : list A) (a : A) :
  In a l -> f a = NaN -> reduce_sum f l = NaN.
Proof.
  intros I E. induction l as [| b l IH]; [destruct I |].
  rewrite reduce_sum_cons. destruct I as [-> | I].
  - now rewrite E.
  - rewrite (IH I). apply add_NaN_r.
Qed.

Lemma traverse_throws (A B : Type) (f : A -> outcome B) (l : list A) (a : A) (w : string) :
  (forall b w', f b = Throws w' -> w' = w) ->
  In a l -> f a = Throws w -> traverse f l = Throws w.
Proof.
  intros U I E. induction l as [| b l IH]; [destruct I |].
  cbn [traverse]. destruct (f b) as [r | w'] eqn:Eb; cbn [bind].
  - destruct I as [-> | I]; [congruence |]. now rewrite (IH I).
  - now rewrite (U b w' Eb).
Qed.

Lemma traverse_returns (A B : Type) (f : A -> outcome B) (l : list A) (bs : list B) :
  Forall2 (fun a b => f a = Returns b) l bs -> traverse f l = Returns bs.
Proof.
  induction 1 as [| a b l bs E _ IH]; cbn [traverse]; [reflexivity |].
  now rewrite E, IH.
Qed.

Section Unparsed.
Context {H : Host}.

Lemma chunk_of_member (s : Swap.t) (l : list Swap.t) :
  In s l ->
  exists c, In c (chunks 99 l) /\ In s c
            /\ In (Current.bucket c) (Current.aggregateData l).
Proof.
  intros I. rewrite <- (concat_chunks 99 l) in I. apply in_concat in I.
  destruct I as (c & Ic & Is). exists c. repeat split; trivial.
  rewrite Current_aggregateData_chunks. now apply in_map.
Qed.

Lemma swapDate_unparsed (s : Swap.t) :
  parseInt (Swap.timestamp s) = None ->
  formatDate (swapDate s) "PPpp" = Throws "RangeError: Invalid time value".
Proof. intros E. unfold swapDate. now rewrite E. Qed.

Lemma swapDate_parsed (s : Swap.t) (t : Z) :
  parseInt (Swap.timestamp s) = Some t -> swapDate s = TimeClip (t * 1000).
Proof.
  intros E. unfold swapDate. rewrite E. cbn [numOf].
  now rewrite ofZ_mul, new_Date_ofZ.
Qed.

Lemma Paginated_aggregateData_throws (l : list Swap.t) (s : Swap.t) :
  In s l ->
  parseInt (Swap.timestamp s) = None ->
  Paginated.aggregateData l = Throws "RangeError: Invalid time value".
Proof.
  intros I E. unfold Paginated.aggregateData. apply (traverse_throws _ _ s); trivial.
  - intros b w' Eb. fold (swapDate b) in Eb.
    destruct (swapDate b) as [t |]; cbn in Eb; congruence.
  - fold (swapDate s). now rewrite (swapDate_unparsed _ E).
Qed.
End Unparsed.

(** X7. An amount that does not parse is neither skipped nor counted as
    zero: the bucket that holds the swap gets the total [NaN], in the
    chunks of 100 and in the ten-minute buckets alike, and so does the sum
    over all buckets. *)
Theorem unparsed_amount_turns_its_bucket_to_NaN (H : Host) (l : list Swap.t) (s : Swap.t) :
  In s l ->
  parseFloat (Swap.amountUSD s) = NaN ->
  (exists c, In c (chunks 99 l) /\ In s c
             /\ In (Current.bucket c) (Current.aggregateData l)
             /\ datum_y (Current.bucket c) = NaN)
  /\ In (XYCount (TenMinute.timeKey s) NaN (length (members (TenMinute.timeKey s) l)))
        (TenMinute.chartData l)
  /\ bucketTotal (Current.aggregateData l) = NaN
  /\ bucketTotal (TenMinute.chartData l) = NaN.
Proof.
  intros I E. repeat split.
  - destruct (chunk_of_member s l I) as (c & Ic & Is & Ib).
    exists c. repeat split; trivial. unfold Current.bucket. cbn [datum_y].
    now apply (reduce_sum_NaN _ _ s).
  - apply In_chartData. exists s. split; [exact I |]. unfold pointOf. f_equal.
    symmetry. apply (reduce_sum_NaN _ _ s); [| exact E].
    apply In_members. now split.
  - rewrite aggregateData_total. now apply (reduce_sum_NaN _ _ s).
  - rewrite chartData_total. now apply (reduce_sum_NaN _ _ s).
Qed.

Lemma unparsed_amount_turns_its_bucket_to_NaN_witness :
  let s := exampleSwap "n/a" "300" in
  let l := [exampleSwap "10" "1000"; s] in
  bucketTotal (@Current.aggregateData ExampleHost.utc l) = NaN
  /\ bucketTotal (@TenMinute.chartData ExampleHost.utc l) = NaN.
Proof.
  intros s l.
  assert (I : In s l) by (right; left; reflexivity).
  assert (E : @parseFloat ExampleHost.utc (Swap.amountUSD s) = NaN) by reflexivity.
  destruct (@unparsed_amount_turns_its_bucket_to_NaN ExampleHost.utc l s I E)
    as (_ & _ & T1 & T2).
  split; assumption.
Defined.

(** X8. A timestamp that does not parse leaves its bucket without a valid
    time: the chunk that holds the swap gets an invalid date, the
    ten-minute chart gets a point at an invalid date that gathers all such
    swaps, and the per-swap chart of the pagination variant cannot be
    built at all, because formatting the invalid date throws. *)
Theorem unparsed_timestamp_leaves_invalid_date (H : Host) (l : list Swap.t) (s : Swap.t) :
  In s l ->
  parseInt (Swap.timestamp s) = None ->
  (exists c, In c (chunks 99 l) /\ In s c
             /\ In (Current.bucket c) (Current.aggregateData l)
             /\ datum_x (Current.bucket c) = None)
  /\ In (pointOf None l) (TenMinute.chartData l)
  /\ (1 <= datum_count (pointOf None l))%nat
  /\ Paginated.aggregateData l = Throws "RangeError: Invalid time value".
Proof.
  intros I E. repeat split.
  - destruct (chunk_of_member s l I) as (c & Ic & Is & Ib).
    exists c. repeat split; trivial. unfold Current.bucket. cbn [datum_x].
    rewrite (reduce_sum_NaN (fun swap => numOf (parseInt (Swap.timestamp swap))) c s Is);
      [reflexivity | now rewrite E].
  - apply In_chartData. exists s. split; [exact I |].
    now rewrite (timeKey_unparsed _ E).
  - unfold pointOf. cbn [datum_count].
    assert (Im : In s (members None l))
      by (apply In_members; split; [exact I | now rewrite (timeKey_unparsed _ E)]).
    destruct (members None l); [destruct Im | cbn [length]; lia].
  - now apply (Paginated_aggregateData_throws l s).
Qed.

Lemma unparsed_timestamp_leaves_invalid_date_witness :
  let s := exampleSwap "5" "yesterday" in
  let l := [exampleSwap "10" "1000"; s] in
  In (@pointOf ExampleHost.utc None l) (@TenMinute.chartData ExampleHost.utc l)
  /\ @Paginated.aggregateData ExampleHost.utc l = Throws "RangeError: Invalid time value".
Proof.
  intros s l.
  assert (I : In s l) by (right; left; reflexivity).
  assert (E : @parseInt ExampleHost.utc (Swap.timestamp s) = None) by reflexivity.
  destruct (@unparsed_timestamp_leaves_invalid_date ExampleHost.utc l s I E)
    as (_ & P & _ & T).
  split; assumption.
Defined.

(** ** What the sections render *)

Lemma charts_Elem (tag : string) (cs : list Element) :
  charts (Elem tag cs) = flat_map charts cs.
Proof.
  cbn [charts]. induction cs as [| c cs IH]; [reflexivity |].
  cbn [flat_map]. now rewrite <- IH.
Qed.

Lemma charts_swapCards (amount : Swap.t * string -> list Element)
    (latest : list (Swap.t * string)) :
  (forall sw, flat_map charts (amount sw) = []) ->
  flat_map charts (map (fun sw => swapCard (amount sw) (fst sw) (snd sw)) latest) = [].
Proof.
  intros Ha. induction latest as [| sw latest IH]; [reflexivity |].
  cbn [map flat_map]. rewrite IH, app_nil_r.
  unfold swapCard.
  repeat (rewrite ?charts_Elem; cbn [flat_map charts app]).
  now rewrite Ha.
Qed.

Section SwapsSections.
Context {H : Host}.

(** The first five swaps with their formatted times. *)
Lemma latest_returns (l : list Swap.t) (ts : list Z) :
  map (fun swap => parseInt (Swap.timestamp swap)) l = map Some ts ->
  Forall inDateRange ts ->
  traverse (fun swap => shown <- formatDate (swapDate swap) "PPpp" ;; Returns (swap, shown)) l
  = Returns (combine l (map (fun t => format (t * 1000) "PPpp") ts)).
Proof.
  intros E R. apply traverse_returns. revert ts E R.
  induction l as [| s l IH]; intros [| t ts] E R; try discriminate; cbn [map combine];
    constructor.
  - injection E as Et _. inversion R as [| ? ? Rt _]; subst.
    now rewrite (swapDate_parsed _ Et), (TimeClip_seconds Rt).
  - apply IH; [now injection E | now inversion R].
Qed.

Lemma latest_throws (l : list Swap.t) (s : Swap.t) :
  In s l -> parseInt (Swap.timestamp s) = None ->
  traverse (fun swap => shown <- formatDate (swapDate swap) "PPpp" ;; Returns (swap, shown)) l
  = Throws "RangeError: Invalid time value".
Proof.
  intros I E. apply (traverse_throws _ _ s); trivial.
  - intros b w' Eb. destruct (swapDate b); cbn in Eb; congruence.
  - now rewrite (swapDate_unparsed _ E).
Qed.
End SwapsSections.

(** X9. When the timestamps of the first five swaps parse to times that
    [Date] can hold, the [Swaps] section of the current app and of the
    ten-minute variant returns a page whose only chart carries the
    aggregated data of the whole list; timestamps further down the list
    are not formatted and cannot make the section throw. *)
Theorem swaps_section_renders_aggregate (H : Host) (l : list Swap.t) (ts : list Z) :
  map (fun swap => parseInt (Swap.timestamp swap)) (firstn 5 l) = map Some ts ->
  Forall inDateRange ts ->
  outcome_map dataSeries (Current.Swaps (succeeded (Some {| swaps := l |})))
  = Returns [Current.aggregateData l]
  /\ outcome_map dataSeries (TenMinute.Swaps (succeeded (Some {| swaps := l |})))
     = Returns [TenMinute.chartData l].
Proof.
  intros E R. split.
  - unfold Current.Swaps, succeeded. cbn [loading error data swaps].
    change (slice l 0 5) with (firstn 5 l).
    change (fun swap : Swap.t =>
              shown <- formatDate (new_Date (mul (numOf (parseInt (Swap.timestamp swap))) (ofZ 1000)))
                                  "PPpp" ;; Returns (swap, shown))
      with (fun swap : Swap.t => shown <- formatDate (swapDate swap) "PPpp" ;; Returns (swap, shown)).
    rewrite (@latest_returns _ _ _ E R). cbn [bind outcome_map]. f_equal.
    unfold dataSeries.
    repeat (rewrite ?charts_Elem; cbn [flat_map charts app]).
    rewrite (charts_swapCards (fun sw => [Text ": "; Text (Swap.amountUSD (fst sw)); Text " USD"]))
      by reflexivity.
    reflexivity.
  - unfold TenMinute.Swaps, succeeded. cbn [loading error data swaps].
    change (slice l 0 5) with (firstn 5 l).
    change (fun swap : Swap.t =>
              shown <- formatDate (fromUnixTime (numOf (parseInt (Swap.timestamp swap)))) "PPpp" ;;
              Returns (swap, shown))
      with (fun swap : Swap.t => shown <- formatDate (swapDate swap) "PPpp" ;; Returns (swap, shown)).
    rewrite (@latest_returns _ _ _ E R). cbn [bind outcome_map]. f_equal.
    unfold dataSeries.
    repeat (rewrite ?charts_Elem; cbn [flat_map charts app]).
    rewrite (charts_swapCards
               (fun sw => [Text ": $"; Text (toFixed (parseFloat (Swap.amountUSD (fst sw))) 2)]))
      by reflexivity.
    reflexivity.
Qed.

Lemma swaps_section_renders_aggregate_witness :
  let l := [exampleSwap "10" "1300"; exampleSwap "20" "1000"] in
  outcome_map dataSeries (@Current.Swaps ExampleHost.utc (succeeded (Some {| swaps := l |})))
  = Returns [@Current.aggregateData ExampleHost.utc l].
Proof.
  intros l.
  assert (R : Forall inDateRange [1300; 1000])
    by (repeat constructor; unfold inDateRange; lia).
  exact (proj1 (@swaps_section_renders_aggregate ExampleHost.utc l [1300; 1000] eq_refl R)).
Defined.

(** X10. A timestamp that does not parse among the first five swaps makes
    the [Swaps] section throw while formatting it, in the current app, in
    the ten-minute variant and in the pagination variant, and with the
    section the whole [App], whatever the other three queries hold.  The
    original variant, which prints dates with [toLocaleString], returns
    its page. *)
Theorem swaps_section_throws_on_unparsed_recent_timestamp
    (H : Host) (l : list Swap.t) (s : Swap.t) :
  In s (firstn 5 l) ->
  parseInt (Swap.timestamp s) = None ->
  let q := succeeded (Some {| swaps := l |}) in
  Current.Swaps q = Throws "RangeError: Invalid time value"
  /\ TenMinute.Swaps q = Throws "RangeError: Invalid time value"
  /\ Paginated.Swaps q = Throws "RangeError: Invalid time value"
  /\ (forall qt qp qd, Current.App q qt qp qd = Throws "RangeError: Invalid time value")
  /\ (exists page, Original.Swaps q = ([], Returns page)).
Proof.
  intros I E q.
  assert (C : Current.Swaps q = Throws "RangeError: Invalid time value").
  { unfold Current.Swaps, q, succeeded. cbn [loading error data swaps].
    change (slice l 0 5) with (firstn 5 l).
    change (fun swap : Swap.t =>
              shown <- formatDate (new_Date (mul (numOf (parseInt (Swap.timestamp swap))) (ofZ 1000)))
                                  "PPpp" ;; Returns (swap, shown))
      with (fun swap : Swap.t => shown <- formatDate (swapDate swap) "PPpp" ;; Returns (swap, shown)).
    now rewrite (@latest_throws _ _ _ I E). }
  repeat split.
  - exact C.
  - unfold TenMinute.Swaps, q, succeeded. cbn [loading error data swaps].
    change (slice l 0 5) with (firstn 5 l).
    change (fun swap : Swap.t =>
              shown <- formatDate (fromUnixTime (numOf (parseInt (Swap.timestamp swap)))) "PPpp" ;;
              Returns (swap, shown))
      with (fun swap : Swap.t => shown <- formatDate (swapDate swap) "PPpp" ;; Returns (swap, shown)).
    now rewrite (@latest_throws _ _ _ I E).
  - unfold Paginated.Swaps, q, succeeded. cbn [loading error data swaps andb].
    assert (Il : In s l) by (rewrite <- (firstn_skipn 5 l); apply in_or_app; now left).
    now rewrite (@Paginated_aggregateData_throws H l s Il E).
  - intros qt qp qd. unfold Current.App. now rewrite C.
  - unfold Original.Swaps, q, succeeded. cbn [loading error data swaps].
    rewrite Original_aggregateData_chunks. cbn [bind]. eexists. reflexivity.
Qed.

Lemma swaps_section_throws_on_unparsed_recent_timestamp_witness :
  let s := exampleSwap "5" "soon" in
  let l := [exampleSwap "10" "1000"; s] in
  @Current.Swaps ExampleHost.utc (succeeded (Some {| swaps := l |}))
  = Throws "RangeError: Invalid time value".
Proof.
  intros s l.
  assert (I : In s (firstn 5 l)) by (right; left; reflexivity).
  assert (E : @parseInt ExampleHost.utc (Swap.timestamp s) = None) by reflexivity.
  exact (proj1 (@swaps_section_throws_on_unparsed_recent_timestamp ExampleHost.utc l s I E)).
Defined.

(** X11. The sections of [App] do not share state: when the token query
    has failed and the other three sections return, [App] returns the
    page with those three sections unchanged and the error display in the
    token section's place, so its charts are exactly theirs.  A token
    query that is neither loading nor failed but holds no data is
    different: [TokenVolume] throws on reading it, and [App] with it. *)
Theorem app_isolates_a_failed_section
    (H : Host) (qs : QueryResult SwapsData) (qp : QueryResult PoolsData)
    (qd : QueryResult DayDatasData) (s p d : Element)
    (e : ApolloError) (dt : option TokensData) :
  Current.Swaps qs = Returns s ->
  TopPairs qp = Returns p ->
  ProtocolStats qd = Returns d ->
  Current.App qs (failed e dt) qp qd
  = Returns (Elem "Container" [Elem "Stack" [s; ErrorMessage (message e); p; d]])
  /\ outcome_map charts (Current.App qs (failed e dt) qp qd)
     = Returns (charts s ++ charts p ++ charts d)
  /\ Current.App qs (succeeded None) qp qd
     = Throws "TypeError: Cannot read properties of undefined (reading 'tokens')".
Proof.
  intros Es Ep Ed. unfold Current.App. rewrite Es, Ep, Ed.
  repeat split. cbn [TokenVolume failed loading error bind outcome_map message].
  f_equal. repeat (rewrite ?charts_Elem; cbn [flat_map charts app]).
  now rewrite !app_nil_r.
Qed.

Lemma app_isolates_a_failed_section_witness :
  let qs := succeeded (Some {| swaps := [exampleSwap "10" "1300"] |}) in
  let qp := succeeded (Some {| pools := [] |}) in
  let qd := succeeded (Some {| uniswapDayDatas := [] |}) in
  exists s p d,
    @Current.Swaps ExampleHost.utc qs = Returns s
    /\ @TopPairs ExampleHost.utc qp = Returns p
    /\ @ProtocolStats ExampleHost.utc qd = Returns d
    /\ @Current.App ExampleHost.utc qs (failed {| message := "Network error" |} None) qp qd
       = Returns (Elem "Container"
                    [Elem "Stack" [s; ErrorMessage "Network error"; p; d]]).
Proof.
  intros qs qp qd.
  destruct (@Current.Swaps ExampleHost.utc qs) as [s | w] eqn:Es;
    [| vm_compute in Es; discriminate Es].
  destruct (@TopPairs ExampleHost.utc qp) as [p | w] eqn:Ep;
    [| vm_compute in Ep; discriminate Ep].
  destruct (@ProtocolStats ExampleHost.utc qd) as [d | w] eqn:Ed;
    [| vm_compute in Ed; discriminate Ed].
  exists s, p, d. repeat split.
  exact (proj1 (@app_isolates_a_failed_section ExampleHost.utc qs qp qd s p d
                  {| message := "Network error" |} None Es Ep Ed)).
Defined.

Section Stats.
Context {H : Host}.

Lemma day_labels (days : list DayData.t) :
  Forall (fun entry => inDateRange (DayData.date entry)) days ->
  traverse (fun entry =>
              formatDate (new_Date (mul (ofZ (DayData.date entry)) (ofZ 1000))) "MMM d") days
  = Returns (map (fun entry => format (DayData.date entry * 1000) "MMM d") days).
Proof.
  intros R. apply traverse_returns.
  induction R as [| e days Re _ IH]; cbn [map]; constructor; trivial.
  now rewrite ofZ_mul, new_Date_ofZ, (TimeClip_seconds Re).
Qed.
End Stats.

(** X12. With data whose dates [Date] can hold, [ProtocolStats] returns:
    it renders three line charts, for TVL, volume and fees in that order,
    which share one label axis with one formatted date per day entry, and
    it hands each chart the entries' decimal strings as they came,
    unparsed and in order. *)
Theorem protocol_stats_three_charts_one_axis (H : Host) (days : list DayData.t) :
  Forall (fun entry => inDateRange (DayData.date entry)) days ->
  let labels := Some (map (fun entry => format (DayData.date entry * 1000) "MMM d") days) in
  let chart (label : string) (field : DayData.t -> string) :=
    {| labels := labels;
       datasets := [{| Dataset.label := label;
                       Dataset.data := map (fun entry => Raw (field entry)) days |}] |} in
  outcome_map charts (ProtocolStats (succeeded (Some {| uniswapDayDatas := days |})))
  = Returns [chart "Total Value Locked (USD)" DayData.tvlUSD;
             chart "Volume (USD)" DayData.volumeUSD;
             chart "Fees (USD)" DayData.feesUSD].
Proof.
  intros R labels chart. unfold ProtocolStats, succeeded.
  cbn [loading error data uniswapDayDatas]. rewrite (day_labels R).
  reflexivity.
Qed.

Lemma protocol_stats_three_charts_one_axis_witness :
  let days := [{| DayData.date := 1726272000; DayData.tvlUSD := "4100000000.5";
                  DayData.volumeUSD := "950000000"; DayData.feesUSD := "1200000" |};
               {| DayData.date := 1726185600; DayData.tvlUSD := "4000000000";
                  DayData.volumeUSD := "870000000"; DayData.feesUSD := "1100000" |}] in
  outcome_map (fun page => map labels (charts page))
    (@ProtocolStats ExampleHost.utc (succeeded (Some {| uniswapDayDatas := days |})))
  = Returns [Some ["1726272000000"; "1726185600000"];
             Some ["1726272000000"; "1726185600000"];
             Some ["1726272000000"; "1726185600000"]].
Proof.
  intros days.
  assert (R : Forall (fun entry => inDateRange (DayData.date entry)) days)
    by (repeat constructor; unfold inDateRange; cbn; lia).
  pose proof (@protocol_stats_three_charts_one_axis ExampleHost.utc days R) as P.
  cbv zeta in P.
  destruct (@ProtocolStats ExampleHost.utc (succeeded (Some {| uniswapDayDatas := days |})))
    as [page | w]; [| discriminate P].
  cbn [outcome_map] in *. injection P as ->. reflexivity.
Defined.

(** ** The pagination variant *)

Lemma charts_children (cs : list Element) :
  (fix go (l : list Element) : list ChartData :=
     match l with
     | [] => []
     | c :: l' => charts c ++ go l'
     end) cs
  = flat_map charts cs.
Proof. induction cs as [| c cs IH]; [reflexivity |]. cbn [flat_map]. now rewrite <- IH. Qed.

Section PaginatedChart.
Context {H : Host}.

(** The point the pagination variant shows for a swap at time [t]. *)
Lemma Paginated_points (l : list Swap.t) (ts : list Z) :
  map (fun swap => parseInt (Swap.timestamp swap)) l = map Some ts ->
  Forall inDateRange ts ->
  Paginated.aggregateData l
  = Returns (map (fun st => XYLabel (Some (snd st * 1000))
                                     (parseFloat (Swap.amountUSD (fst st)))
                                     (format (snd st * 1000) "PPpp"))
                 (combine l ts)).
Proof.
  intros E R. unfold Paginated.aggregateData. apply traverse_returns. revert ts E R.
  induction l as [| s l IH]; intros [| t ts] E R; try discriminate; cbn [map combine];
    constructor.
  - injection E as Et _. inversion R as [| ? ? Rt _]; subst. fold (swapDate s).
    rewrite (swapDate_parsed _ Et), (TimeClip_seconds Rt). reflexivity.
  - apply IH; [now injection E | now inversion R].
Qed.
End PaginatedChart.

(** X13. The pagination variant does not aggregate: when every timestamp
    parses to a time that [Date] can hold, its chart gets one point per
    swap, in list order, at the swap's time in milliseconds and with the
    swap's parsed amount, and the section keeps showing this chart while a
    further page is loading. *)
Theorem paginated_chart_has_one_point_per_swap (H : Host) (l : list Swap.t) (ts : list Z) :
  map (fun swap => parseInt (Swap.timestamp swap)) l = map Some ts ->
  Forall inDateRange ts ->
  exists points,
    Paginated.aggregateData l = Returns points
    /\ length points = length l
    /\ map datum_x points = map (fun t => Some (t * 1000)) ts
    /\ map datum_y points = map (fun swap => parseFloat (Swap.amountUSD swap)) l
    /\ (forall loadingMore : bool,
          outcome_map dataSeries
            (Paginated.Swaps {| loading := loadingMore; error := None;
                                data := Some {| swaps := l |} |})
          = Returns [points]).
Proof.
  intros E R.
  assert (L : length l = length ts).
  { apply (f_equal (@length _)) in E. now rewrite !length_map in E. }
  eexists. split; [apply (@Paginated_points _ _ _ E R) |].
  split; [now rewrite length_map, length_combine, <- L, Nat.min_id |].
  split.
  { rewrite map_map. cbn [datum_x]. clear E R. revert ts L.
    induction l as [| s l IH]; intros [| t ts] L; try discriminate; [reflexivity |].
    cbn [combine map snd]. f_equal. apply IH. now injection L. }
  split.
  { rewrite map_map. cbn [datum_y]. clear E R. revert ts L.
    induction l as [| s l IH]; intros [| t ts] L; try discriminate; [reflexivity |].
    cbn [combine map fst]. f_equal. apply IH. now injection L. }
  intros loadingMore. unfold Paginated.Swaps. cbn [loading error data swaps].
  rewrite Bool.andb_false_r. rewrite (@Paginated_points _ _ _ E R). cbn [bind].
  change (slice l 0 5) with (firstn 5 l).
  change (fun swap : Swap.t =>
            shown <- formatDate (new_Date (mul (numOf (parseInt (Swap.timestamp swap))) (ofZ 1000)))
                                "PPpp" ;; Returns (swap, shown))
    with (fun swap : Swap.t => shown <- formatDate (swapDate swap) "PPpp" ;; Returns (swap, shown)).
  assert (E5 : map (fun swap => parseInt (Swap.timestamp swap)) (firstn 5 l)
               = map Some (firstn 5 ts)) by (now rewrite <- !firstn_map, E).
  assert (R5 : Forall inDateRange (firstn 5 ts)).
  { rewrite <- (firstn_skipn 5 ts) in R. now apply Forall_app in R. }
  rewrite (@latest_returns _ _ _ E5 R5). cbn [bind outcome_map]. f_equal.
  unfold dataSeries.
  repeat (rewrite ?charts_Elem; cbn [flat_map charts app]).
  rewrite !app_nil_r, charts_children.
  rewrite (flat_map_app charts).
  rewrite (charts_swapCards (fun sw => [Text ": "; Text (Swap.amountUSD (fst sw)); Text " USD"]))
    by reflexivity.
  destruct loadingMore; reflexivity.
Qed.

Lemma paginated_chart_has_one_point_per_swap_witness :
  let l := [exampleSwap "10" "1300"; exampleSwap "20" "1000"] in
  exists points,
    @Paginated.aggregateData ExampleHost.utc l = Returns points
    /\ length points = length l.
Proof.
  intros l.
  assert (R : Forall inDateRange [1300; 1000])
    by (repeat constructor; unfold inDateRange; lia).
  destruct (@paginated_chart_has_one_point_per_swap ExampleHost.utc l [1300; 1000] eq_refl R)
    as (points & E & L & _).
  exists points. split; assumption.
Defined.

(** X14. Merging fetched pages composes: merging page [A] and then page
    [B] into the prior list [P] gives [P ++ A ++ B] and advances the page
    counter twice.  An empty fetched page is still a result: it leaves
    the list as it was but advances the page counter all the same. *)
Theorem load_more_merges_compose (page : nat) (P A B : list Swap.t) :
  let first := Paginated.updateQuery page {| swaps := P |} (Some {| swaps := A |}) in
  Paginated.updateQuery (snd first) (fst first) (Some {| swaps := B |})
  = ({| swaps := P ++ A ++ B |}, (page + 2)%nat)
  /\ Paginated.updateQuery page {| swaps := P |} (Some {| swaps := [] |})
     = ({| swaps := P |}, (page + 1)%nat).
Proof.
  cbn [Paginated.updateQuery fst snd swaps]. split.
  - f_equal; [now rewrite <- app_assoc | lia].
  - now rewrite app_nil_r.
Qed.

(** ** The original variant *)

Section OriginalPoints.
Context {H : Host}.

Lemma Original_point_cons (s : Swap.t) (c : list Swap.t) :
  datum_x (Original_point (s :: c)) = swapDate s
  /\ datum_y (Original_point (s :: c))
     = reduce_sum (fun swap => parseFloat (Swap.amountUSD swap)) (s :: c).
Proof.
  unfold Original_point, Original.bucket, Original.timestampAt.
  destruct (@nth_error_last _ (s :: c) ltac:(discriminate)) as [z ->].
  cbn [nth_error bind datum_x datum_y]. now split.
Qed.

Lemma Original_points_xy (cs : list (list Swap.t)) :
  Forall (fun c => c <> []) cs ->
  map datum_x (map Original_point cs)
  = map (fun c => match c with s :: _ => swapDate s | [] => None end) cs
  /\ map datum_y (map Original_point cs) = map datum_y (map Current.bucket cs).
Proof.
  induction 1 as [| c cs N _ [IHx IHy]]; [now split |].
  destruct c as [| s c]; [congruence |].
  destruct (Original_point_cons s c) as [Ex Ey].
  cbn [map]. rewrite IHx, IHy, Ex, Ey. now split.
Qed.
End OriginalPoints.

(** X15. The original variant cuts the same chunks as the current app and
    gives each its sum of amounts as the current app does, but places each
    bucket at the time of the first swap of its chunk instead of the
    average.  Its loop never
    throws, so with data its [Swaps] section always returns a page, with
    this series as its chart and nothing written to the console; a failed
    query is reported to the console once and shown as ["Error: "] and the
    message; a result without data makes the section throw. *)
Theorem original_variant_places_buckets_at_first_timestamp
    (H : Host) (l : list Swap.t) (e : ApolloError) (d : option SwapsData) :
  (exists points,
     Original.aggregateData l = Returns points
     /\ map datum_x points
        = map (fun c => match c with s :: _ => swapDate s | [] => None end) (chunks 99 l)
     /\ map datum_y points = map datum_y (Current.aggregateData l)
     /\ fst (Original.Swaps (succeeded (Some {| swaps := l |}))) = []
     /\ outcome_map dataSeries (snd (Original.Swaps (succeeded (Some {| swaps := l |}))))
        = Returns [points])
  /\ Original.Swaps (failed e d)
     = ([("Error fetching data:", e)],
        Returns (Elem "Typography" [Text "Error: "; Text (message e)]))
  /\ Original.Swaps (succeeded None)
     = ([], Throws "TypeError: Cannot read properties of undefined (reading 'swaps')").
Proof.
  split; [| split; reflexivity].
  exists (map Original_point (chunks 99 l)).
  assert (N : Forall (fun c : list Swap.t => c <> []) (chunks 99 l)).
  { apply Forall_forall. intros c Ic. exact (@chunk_nonempty _ _ _ _ Ic). }
  destruct (Original_points_xy N) as [Ex Ey].
  split; [apply Original_aggregateData_chunks |].
  split; [exact Ex |].
  split; [now rewrite Current_aggregateData_chunks |].
  unfold Original.Swaps, succeeded. cbn [loading error data swaps fst snd].
  split; [reflexivity |].
  rewrite Original_aggregateData_chunks. cbn [bind outcome_map]. f_equal.
  unfold dataSeries.
  repeat (rewrite ?charts_Elem; cbn [flat_map charts app]).
  rewrite !app_nil_r, ?charts_children.
  rewrite (charts_swapCards (fun sw => [Text ": "; Text (Swap.amountUSD (fst sw)); Text " USD"]))
    by reflexivity.
  reflexivity.
Qed.

(** ** The order of the swap list *)

Lemma filter_perm (A : Type) (f : A -> bool) (l1 l2 : list A) :
  Permutation l1 l2 -> Permutation (filter f l1) (filter f l2).
Proof.
  induction 1 as [| a l1 l2 _ IH | a b l | l1 l2 l3 _ IH1 _ IH2]; cbn [filter].
  - constructor.
  - destruct (f a); [now constructor | exact IH].
  - destruct (f a), (f b); try reflexivity. apply perm_swap.
  - now transitivity (filter f l2).
Qed.

Lemma timeLe_antisym (a b : Date) : timeLe a b -> timeLe b a -> a = b.
Proof. destruct a, b; cbn [timeLe]; try tauto. intros. f_equal. lia. Qed.

(** Two lists in ascending time order with the same elements and no
    repeated time are the same list. *)
Lemma sorted_unique (A : Type) (when : A -> Date) (l1 l2 : list A) :
  Permutation l1 l2 ->
  NoDup (map when l1) ->
  StronglySorted timeLe (map when l1) ->
  StronglySorted timeLe (map when l2) ->
  l1 = l2.
Proof.
  revert l2.
  induction l1 as [| a l1 IH]; intros l2 P D S1 S2.
  - apply Permutation_nil in P. now subst.
  - destruct l2 as [| b l2]; [apply Permutation_sym, Permutation_nil in P; discriminate |].
    cbn [map] in *.
    inversion D as [| ? ? Na D']; subst.
    inversion S1 as [| ? ? S1' F1]; subst. inversion S2 as [| ? ? S2' F2]; subst.
    rewrite Forall_forall in F1, F2.
    assert (E : a = b).
    { assert (Ia : In a (b :: l2)) by (apply (Permutation_in _ P); apply in_eq).
      assert (Ib : In b (a :: l1))
        by (apply (Permutation_in _ (Permutation_sym P)); apply in_eq).
      destruct Ia as [-> | Ia]; [reflexivity |].
      destruct Ib as [-> | Ib]; [reflexivity |].
      exfalso. apply Na.
      rewrite (@timeLe_antisym _ _ (F1 _ (in_map when _ _ Ib))
                                   (F2 _ (in_map when _ _ Ia))).
      now apply in_map. }
    subst b. f_equal. apply IH; trivial. now apply Permutation_cons_inv in P.
Qed.

Section ListOrder.
Context {H : Host}.

Lemma members_perm (k : key) (l1 l2 : list Swap.t) :
  Permutation l1 l2 -> Permutation (members k l1) (members k l2).
Proof. apply filter_perm. Qed.

Lemma In_timeAndCount (l : list Swap.t) (q : Date * nat) :
  In q (map timeAndCount (TenMinute.chartData l))
  <-> exists s, In s l
                /\ q = (TenMinute.timeKey s, length (members (TenMinute.timeKey s) l)).
Proof.
  rewrite in_map_iff. split.
  - intros (p & <- & Ip). apply In_chartData in Ip. destruct Ip as (s & Is & ->).
    exists s. now split.
  - intros (s & Is & ->). exists (pointOf (TenMinute.timeKey s) l).
    split; [reflexivity |]. apply In_chartData. now exists s.
Qed.

Lemma times_of_timeAndCount (l : list Swap.t) :
  map fst (map timeAndCount (TenMinute.chartData l)) = map datum_x (TenMinute.chartData l).
Proof. rewrite map_map. now apply map_ext. Qed.

Lemma timeAndCount_perm (l1 l2 : list Swap.t) :
  Permutation l1 l2 ->
  Permutation (map timeAndCount (TenMinute.chartData l1))
              (map timeAndCount (TenMinute.chartData l2)).
Proof.
  intros P. apply NoDup_Permutation.
  - apply (NoDup_map_inv fst). rewrite times_of_timeAndCount. apply chartData_NoDup.
  - apply (NoDup_map_inv fst). rewrite times_of_timeAndCount. apply chartData_NoDup.
  - intros q. rewrite !In_timeAndCount. split; intros (s & Is & ->); exists s.
    + split; [now apply (Permutation_in _ P) |]. f_equal.
      apply Permutation_length. now apply members_perm.
    + split; [now apply (Permutation_in _ (Permutation_sym P)) |]. f_equal.
      apply Permutation_length. now apply members_perm, Permutation_sym.
Qed.
End ListOrder.

(** X16. Which ten-minute buckets the chart shows does not depend on the
    order in which the swaps arrive: when every swap has a valid key, any
    rearrangement of the swap list gives the same times with the same
    counts, in the same order, and each bucket holds the same swaps.  Only
    the order in which a bucket adds up its amounts follows the list. *)
Theorem ten_minute_buckets_ignore_list_order (H : Host) (l1 l2 : list Swap.t) :
  Permutation l1 l2 ->
  validKeys l1 ->
  map timeAndCount (TenMinute.chartData l1) = map timeAndCount (TenMinute.chartData l2)
  /\ (forall k, Permutation (members k l1) (members k l2)).
Proof.
  intros P V. split; [| intros k; now apply members_perm].
  apply (@sorted_unique _ fst).
  - now apply timeAndCount_perm.
  - rewrite times_of_timeAndCount. apply chartData_NoDup.
  - rewrite times_of_timeAndCount. now apply chartData_ascending.
  - rewrite times_of_timeAndCount. apply chartData_ascending.
    unfold validKeys in *. now apply (Permutation_Forall P).
Qed.

Lemma ten_minute_buckets_ignore_list_order_witness :
  let a := exampleSwap "10" "1300" in
  let b := exampleSwap "20" "100" in
  let c := exampleSwap "5" "1250" in
  map timeAndCount (@TenMinute.chartData ExampleHost.utc [a; b; c])
  = map timeAndCount (@TenMinute.chartData ExampleHost.utc [c; b; a]).
Proof.
  intros a b c.
  apply (@ten_minute_buckets_ignore_list_order ExampleHost.utc).
  - apply (perm_trans (l' := [b; a; c])); [apply perm_swap |].
    apply (perm_trans (l' := [b; c; a])); [apply perm_skip, perm_swap |].
    apply perm_swap.
  - unfold validKeys.
    repeat (apply Forall_cons; [vm_compute; discriminate |]). apply Forall_nil.
Defined.
